(** * Fog of war: the light glow and the dark overlay of [tank_king/objects.py]

    A shallow embedding of [LightGlow] and [DarkOverlay] and of the helpers
    they call, and of [Object] and [SolidObject], followed by the
    properties of the fog engine and of [SolidObject.generate_many].

    Conventions of the embedding.
    - Python [int] is [Z]; Python [float] is the kernel's binary64 [float],
      so [k -= 0.1] is the IEEE subtraction the interpreter performs.  The
      fog grid holds floats; an [int] stored in it (25, 55, 255) is
      represented by the float of the same value.
    - A pygame [Surface] is its size and a colour for every pixel.  Only the
      three colour channels are kept.
    - Calls that can raise ([pygame.Surface] on a negative size, [int] on a
      float that is not finite, an index out of range) return [option].
    - [wclib.SIZE], [utils.distance] and pygame's circle rasteriser are not
      part of the sources at hand; they are parameters of the development,
      and so are the sprite sheet [utils.load_image] returns and the
      positions [utils.random_in_rect] draws.
    - A loop that need not end is run on a finite list of random draws; its
      outcome says whether it has returned, raised, or is still running.

    The properties of the fog grid are proved for every grid whose cells are
    binary64 numbers between 0 and 255, which is what the engine keeps them
    to ([reachable_in_range]). *)

From Stdlib Require Import ZArith Lia Floats.
From stdpp Require Import base option list.

Local Open Scope Z_scope.
Set Default Proof Using "Type".
Set Proof Using Clear Unused.

(** ** Numbers *)

(** Python's [<] on the two numeric types the fog code compares. *)
Class PyLt (A : Type) := py_lt : A -> A -> bool.
#[export] Instance int_lt : PyLt Z := Z.ltb.
#[export] Instance float_lt : PyLt float := PrimFloat.ltb.

(** Modelled from the spec: [utils.clamp] is imported by [objects.py] but is not
    among the sources; every use is described as "clamp to [lo,hi]", which
    is the helper of the challenge template:
    [if value < mini: return mini / elif maxi < value: return maxi /
    else: return value]. *)
Definition clamp {A : Type} `{PyLt A} (value mini maxi : A) : A :=
  if py_lt value mini then mini
  else if py_lt maxi value then maxi
  else value.

(** The float of a Python [int] (exact below 2^53, which covers every
    integer of the fog code). *)
Definition float_of_int (z : Z) : float :=
  match z with
  | Z0 => PrimFloat.zero
  | Zpos _ => PrimFloat.of_uint63 (Uint63.of_Z z)
  | Zneg p => PrimFloat.opp (PrimFloat.of_uint63 (Uint63.of_Z (Zpos p)))
  end.

(** Python's [int(x)] on a float: truncation toward zero; it raises on
    infinities and NaN. *)
Definition int (x : float) : option Z :=
  match Prim2SF x with
  | S754_zero _ => Some 0
  | S754_finite s m e =>
      let a := Z.shiftl (Zpos m) e in
      Some (if s then - a else a)
  | S754_infinity _ | S754_nan => None
  end.

(** The literal [0.1]: the binary64 number nearest to one tenth. *)
Definition decay_step : float := 0x1.999999999999ap-4%float.

(** [range(n)] *)
Definition range (n : Z) : list Z := map Z.of_nat (seq 0 (Z.to_nat n)).

(** ** Surfaces *)

Record Color := rgb { red : Z; green : Z; blue : Z }.

Definition grey (k : Z) : Color := rgb k k k.

Record Surface := {
  width : Z;
  height : Z;
  pixel : Z -> Z -> Color
}.

Definition Rect : Type := Z * Z * Z * Z.

(** [pygame.Surface(size)]: a black surface; a negative size is an error. *)
Definition Surface_new (size : Z * Z) : option Surface :=
  let '(w, h) := size in
  if (w <? 0) || (h <? 0) then None
  else Some {| width := w; height := h; pixel := fun _ _ => grey 0 |}.

Definition get_size (s : Surface) : Z * Z := (width s, height s).

Definition inside (s : Surface) (x y : Z) : bool :=
  (0 <=? x) && (x <? width s) && (0 <=? y) && (y <? height s).

(** [surf.get_rect().center] *)
Definition get_rect_center (s : Surface) : Z * Z :=
  (width s / 2, height s / 2).

(** [surf.get_rect(center=pos)]: the surface's rectangle moved so that its
    centre is [pos]. *)
Definition get_rect_at (s : Surface) (pos : Z * Z) : Rect :=
  (fst pos - width s / 2, snd pos - height s / 2, width s, height s).

(** [pygame.draw.rect(surf, color, rect)] with a filled rectangle. *)
Definition draw_rect (s : Surface) (c : Color) (r : Rect) : Surface :=
  let '(rx, ry, rw, rh) := r in
  {| width := width s; height := height s;
     pixel := fun x y =>
       if inside s x y && (rx <=? x) && (x <? rx + rw) && (ry <=? y) && (y <? ry + rh)
       then c else pixel s x y |}.

(** The two blend modes of [DarkOverlay.draw], on one colour channel.
    [BLEND_RGBA_MAX] keeps the brighter value; [BLEND_RGBA_MULT] is pygame's
    integer product [(d * s + 255) >> 8], and 0 when either side is 0. *)
Inductive BlendMode := BLEND_RGBA_MAX | BLEND_RGBA_MULT.

Definition blend_channel (m : BlendMode) (s d : Z) : Z :=
  match m with
  | BLEND_RGBA_MAX => if d <? s then s else d
  | BLEND_RGBA_MULT =>
      if (d =? 0) || (s =? 0) then 0 else Z.shiftr (d * s + 255) 8
  end.

Definition blend (m : BlendMode) (s d : Color) : Color :=
  rgb (blend_channel m (red s) (red d))
      (blend_channel m (green s) (green d))
      (blend_channel m (blue s) (blue d)).

(** [dst.blit(src, dest, special_flags=mode)]: the pixels of [src] are
    blended into [dst] with the top left corner of [src] at [dest]; what
    falls outside [dst] is clipped. *)
Definition blit (dst src : Surface) (dest : Z * Z) (m : BlendMode) : Surface :=
  {| width := width dst; height := height dst;
     pixel := fun x y =>
       if inside dst x y && inside src (x - fst dest) (y - snd dest)
       then blend m (pixel src (x - fst dest) (y - snd dest)) (pixel dst x y)
       else pixel dst x y |}.

Definition topleft (r : Rect) : Z * Z :=
  let '(rx, ry, _, _) := r in (rx, ry).

(** [rect.size], [rect.w], [rect.h] *)
Definition rect_size (r : Rect) : Z * Z :=
  let '(_, _, rw, rh) := r in (rw, rh).

Definition rect_w (r : Rect) : Z := fst (rect_size r).
Definition rect_h (r : Rect) : Z := snd (rect_size r).

(** ** The objects *)

Module LightGlow.
(** The fields the fog code reads.  [blink_timer], [is_blinking] and
    [blink_k] are set from the wall clock and never read. *)
Record t := { radius : Z; surf : Surface; glow : Z }.
End LightGlow.

Module DarkOverlay.
Record t := {
  surf : Surface;
  light : LightGlow.t;
  cell_size : Z;
  grid : list (list float)
}.
End DarkOverlay.

(** [grid[row][col]] and [grid[row][col] = v] *)
Definition get_cell (grid : list (list float)) (row col : nat) : option float :=
  r ← grid !! row; r !! col.

Definition set_cell (grid : list (list float)) (row col : nat) (v : float)
  : list (list float) :=
  match grid !! row with
  | Some r => <[row := <[col := v]> r]> grid
  | None => grid
  end.

(** A [for] loop whose body may raise. *)
Fixpoint for_each {S : Type} (l : list nat) (body : nat -> S -> option S) (s : S)
  : option S :=
  match l with
  | [] => Some s
  | i :: l' => s' ← body i s; for_each l' body s'
  end.

(** *** One cell, one call of [draw]

    The loop body of [draw] does three things to a cell: the decay of lines
    193 to 196, the reveal of lines 199 to 201, and the choice of the grey it
    is painted with.  They are named here; [draw_cell_in_range] below shows
    that the loop body computes exactly these. *)

(** [if k > 0: k -= 0.1; grid[row][col] = clamp(k, 25, 255)] *)
Definition decay (k : float) : float :=
  if py_lt PrimFloat.zero k
  then clamp (PrimFloat.sub k decay_step) 25%float 255%float
  else k.

(** The brightness stored for a cell: 55 when the light reaches it,
    the decayed brightness otherwise. *)
Definition cell_next (lit : bool) (k : float) : float :=
  if lit then float_of_int 55 else decay k.

(** The grey level a cell is painted with. *)
Definition cell_grey (glow : Z) (lit : bool) (k : float) : Z :=
  clamp (if lit then 55 - (11 - glow) * 2 else default 0 (int (decay k))) 0 255.

Definition cell_rect (size : Z) (row col : nat) : Rect :=
  (Z.of_nat col * size, Z.of_nat row * size, size, size).

Definition in_rect (r : Rect) (x y : Z) : bool :=
  let '(rx, ry, rw, rh) := r in
  (rx <=? x) && (x <? rx + rw) && (ry <=? y) && (y <? ry + rh).

(** A brightness: a binary64 number between 0 and 255.  The fog grid is in
    range when every cell holds one. *)
Definition brightness (k : float) : Prop :=
  PrimFloat.leb 0 k = true /\ PrimFloat.leb k 255 = true.

Definition in_range (grid : list (list float)) : Prop :=
  forall row col k, get_cell grid row col = Some k -> brightness k.

(** A boolean property checked along the first [n] decay steps from [k]. *)
Fixpoint along (P : float -> bool) (n : nat) (k : float) : bool :=
  P k && match n with O => true | S n' => along P n' (decay k) end.

(** The mantissa of the literal [0.1], at exponent [-56]. *)
Definition tenth_m : positive := 7205759403792794.

(** The value of a binary64 number of the fog binades, in units of [2^-56]. *)
Definition units (k : float) : Z :=
  match Prim2SF k with
  | S754_finite false m e => Zpos m * 2 ^ (e + 56)
  | _ => 0
  end.

(** What one decay step loses at least, in units of [2^-56]: the literal
    0.1 less the rounding error. *)
Definition step_units : Z := 7205759403790746.

(** [update_glow] called [n] times in a row. *)
Fixpoint iterate {A : Type} (f : A -> option A) (n : nat) (a : A) : option A :=
  match n with
  | O => Some a
  | S n' => a' ← f a; iterate f n' a'
  end.

(** The rings of a glow mask, from the outer one to the inner one: the
    radius and the brightness of each. *)
Definition rings (radius intensity ringStep : Z) : list (Z * Z) :=
  map (fun i => (radius - i * ringStep, clamp (i * intensity) 0 255)) (range 25).

Definition ceil_div (a b : Z) : Z := - ((- a) / b).

(** A concrete distance and rasteriser for running the engine: the Euclidean
    distance in binary64 and the closed disc (empty below radius 1). *)
Definition euclid (p q : Z * Z) : float :=
  let dx := fst p - fst q in
  let dy := snd p - snd q in
  PrimFloat.sqrt (float_of_int (dx * dx + dy * dy)).

Definition disc (center : Z * Z) (radius x y : Z) : bool :=
  (1 <=? radius)
  && ((x - fst center) * (x - fst center) + (y - snd center) * (y - snd center)
      <=? radius * radius).

(** A small overlay to run the engine on: two cells of 32 pixels side by
    side and a light of radius 125. *)

Definition blank (w h : Z) : Surface :=
  {| width := w; height := h; pixel := fun _ _ => grey 0 |}.

Definition demo_light : LightGlow.t :=
  {| LightGlow.radius := 125; LightGlow.surf := blank 250 250; LightGlow.glow := 12 |}.

Definition demo_overlay (k : float) : DarkOverlay.t :=
  {| DarkOverlay.surf := blank 64 32; DarkOverlay.light := demo_light;
     DarkOverlay.cell_size := 32;
     DarkOverlay.grid := [[k; k]] |}.

(** A frame with the light on the first cell, and one with the light far
    from the grid. *)
Definition near_frame : Surface * (Z * Z) := (blank 64 32, (16, 16)).
Definition far_frame : Surface * (Z * Z) := (blank 64 32, (100000, 100000)).

(** *** Colours and shapes

    A pygame surface holds one byte per channel.  The order [darker] is
    the channel-wise order on colours. *)
Definition byte_color (c : Color) : Prop :=
  0 <= red c <= 255 /\ 0 <= green c <= 255 /\ 0 <= blue c <= 255.

Definition byte_surface (s : Surface) : Prop :=
  forall x y, byte_color (pixel s x y).

Definition darker (a b : Color) : Prop :=
  red a <= red b /\ green a <= green b /\ blue a <= blue b.

(** The shape of a grid: the length of each of its rows. *)
Definition shape (grid : list (list float)) : list nat := map length grid.

(** ** The playground objects

    [Object] and [SolidObject].  A position is kept as the pixel
    coordinates [pygame.Rect] takes from it.  [utils.load_image] and
    [utils.random_in_rect] are not among the sources: the sprite sheet is a
    parameter, and the random draws of [generate_many] are read from a list,
    one position and one [choice] per turn of its loop. *)

Module Object.
Record t := { pos : Z * Z; size : Z * Z; sprite : Surface }.
End Object.

(** [Object.__init__(self, pos, sprite)] *)
Definition Object_init (pos : Z * Z) (sprite : Surface) : Object.t :=
  {| Object.pos := pos; Object.size := get_size sprite; Object.sprite := sprite |}.

(** The property [rect]: [pygame.Rect(self.pos, self.size)] *)
Definition Object_rect (self : Object.t) : Rect :=
  (fst (Object.pos self), snd (Object.pos self),
   fst (Object.size self), snd (Object.size self)).

(** [surface.subsurface(rect)]: the part of the surface inside [rect]; a
    rectangle that is not inside the surface is an error. *)
Definition subsurface (s : Surface) (r : Rect) : option Surface :=
  let '(rx, ry, rw, rh) := r in
  if (rx <? 0) || (ry <? 0) || (rw <? 0) || (rh <? 0)
     || (width s <? rx + rw) || (height s <? ry + rh)
  then None
  else Some {| width := rw; height := rh;
               pixel := fun x y => pixel s (x + rx) (y + ry) |}.

(** [a.colliderect(b)]: the rectangles overlap; a rectangle of width or
    height 0 collides with nothing. *)
Definition colliderect (a b : Rect) : bool :=
  let '(ax, ay, aw, ah) := a in
  let '(bx, b_y, bw, bh) := b in
  if (aw =? 0) || (ah =? 0) || (bw =? 0) || (bh =? 0) then false
  else (Z.min ax (ax + aw) <? Z.max bx (bx + bw))
       && (Z.min ay (ay + ah) <? Z.max b_y (b_y + bh))
       && (Z.max ax (ax + aw) >? Z.min bx (bx + bw))
       && (Z.max ay (ay + ah) >? Z.min b_y (b_y + bh)).

(** [random.choice(seq)], with the random index [r]. *)
Definition choice {A : Type} (seq : list A) (r : nat) : option A :=
  seq !! (r mod length seq)%nat.

Module SolidObject.
Definition SHEET_RECT : list Rect :=
  [ (0, 0, 24, 31);
    (24, 0, 24, 24);
    (48, 0, 24, 24);
    (72, 0, 16, 24);
    (88, 0, 48, 43);
    (136, 0, 16, 16) ].
Definition SCALE : Z := 3.
End SolidObject.

(** [[x * self.SCALE for x in rect]] *)
Definition scale_rect (r : Rect) (scale : Z) : Rect :=
  let '(rx, ry, rw, rh) := r in (rx * scale, ry * scale, rw * scale, rh * scale).

(** [SolidObject.__init__(self, pos)]; [sheet] is
    [load_image("tileset", self.SCALE)] and [r] the draw of [choice]. *)
Definition SolidObject_init (sheet : Surface) (pos : Z * Z) (r : nat)
  : option Object.t :=
  rect ← choice SolidObject.SHEET_RECT r;
  let rect := scale_rect rect SolidObject.SCALE in
  sprite ← subsurface sheet rect;
  Some (Object_init pos sprite).

(** What a loop has come to when the random draws at hand are used up: it
    has returned, it has raised, or it is still running. *)
Inductive outcome (A : Type) : Type :=
  | Returned (a : A)
  | Raised
  | Running.
Arguments Returned {A} a.
Arguments Raised {A}.
Arguments Running {A}.

(** The loop of [generate_many]:
    [while len(objects) < nb and tries < max_tries: ...].  The counter
    [tries] is set to 0 before the loop and the body never assigns it. *)
Fixpoint generate_many_loop (sheet : Surface) (nb max_tries tries : Z)
    (draws : list ((Z * Z) * nat)) (objects : list Object.t)
  : outcome (list Object.t) :=
  if (Z.of_nat (length objects) <? nb) && (tries <? max_tries) then
    match draws with
    | [] => Running
    | (pos, r) :: draws' =>
        match SolidObject_init sheet pos r with
        | None => Raised
        | Some obj =>
            let objects :=
              if negb (existsb (fun other =>
                                  colliderect (Object_rect obj) (Object_rect other))
                               objects)
              then objects ++ [obj]
              else objects in
            generate_many_loop sheet nb max_tries tries draws' objects
        end
    end
  else Returned objects.

(** [SolidObject.generate_many(nb=16, max_tries=1000)] *)
Definition generate_many (sheet : Surface) (nb max_tries : Z)
    (draws : list ((Z * Z) * nat)) : outcome (list Object.t) :=
  let objects := [] in
  let tries := 0 in
  generate_many_loop sheet nb max_tries tries draws objects.

(** An overlay whose surface is wider than its two cells, and three draws
    for [generate_many]: the second object collides with the first. *)
Definition demo_margin : DarkOverlay.t :=
  {| DarkOverlay.surf := blank 70 32; DarkOverlay.light := demo_light;
     DarkOverlay.cell_size := 32;
     DarkOverlay.grid := [[PrimFloat.zero; PrimFloat.zero]] |}.

Definition demo_draws : list ((Z * Z) * nat) :=
  [((0, 0), 0%nat); ((10, 10), 1%nat); ((200, 0), 1%nat)].

(** No two objects of the list collide. *)
Definition apart (objects : list Object.t) : Prop :=
  forall i j a b, i <> j -> objects !! i = Some a -> objects !! j = Some b ->
    colliderect (Object_rect a) (Object_rect b) = false.

(** A sheet large enough for the six sprites, to run [generate_many] on. *)
Definition demo_sheet : Surface := blank 456 129.

Section Engine.

(** [wclib.SIZE], the size of the screen. *)
Variable SIZE : Z * Z.
(** [utils.distance(a, b)] *)
Variable distance : Z * Z -> Z * Z -> float.
(** The pixels [pygame.draw.circle] fills for a centre and a radius. *)
Variable circle : Z * Z -> Z -> Z -> Z -> bool.

Definition draw_circle (s : Surface) (c : Color) (center : Z * Z) (radius : Z)
  : Surface :=
  {| width := width s; height := height s;
     pixel := fun x y =>
       if inside s x y && circle center radius x y then c else pixel s x y |}.

(** *** LightGlow *)

(** The loop shared by [__init__] and [update_glow]:
    [for i in range(layers): k = clamp(i * glow, 0, 255);
     draw.circle(surf, (k, k, k), surf.get_rect().center, radius - i * step)] *)
Definition glow_layer (radius glow step : Z) (s : Surface) (i : Z) : Surface :=
  let k := i * glow in
  let k := clamp k 0 255 in
  draw_circle s (rgb k k k) (get_rect_center s) (radius - i * step).

Definition update_glow (self : LightGlow.t) : option LightGlow.t :=
  let glow := LightGlow.glow self + 1 in
  surf ← Surface_new (LightGlow.radius self * 2, LightGlow.radius self * 2);
  let layers := 25 in
  let glow := clamp glow 0 255 in
  let surf := fold_left (glow_layer (LightGlow.radius self) glow 3) (range layers) surf in
  Some {| LightGlow.radius := LightGlow.radius self;
          LightGlow.surf := surf;
          LightGlow.glow := glow |}.

(** The surface [__init__] has painted when it reaches [self.update_glow()]. *)
Definition LightGlow_init_surf (radius : Z) : option Surface :=
  surf ← Surface_new (radius * 2, radius * 2);
  let layers := 25 in
  let glow := 11 in
  Some (fold_left (glow_layer radius glow 5) (range layers) surf).

Definition LightGlow_init (radius : Z) : option LightGlow.t :=
  surf ← LightGlow_init_surf radius;
  update_glow {| LightGlow.radius := radius; LightGlow.surf := surf;
                 LightGlow.glow := 11 |}.

(** *** DarkOverlay *)

(** [SCREEN = pygame.Rect(0, 0, *SIZE)] *)
Definition SCREEN : Rect := (0, 0, fst SIZE, snd SIZE).

(** [0 * random.random()] is the float zero, whatever is drawn. *)
Definition DarkOverlay_init : option DarkOverlay.t :=
  surf ← Surface_new (rect_size SCREEN);
  light ← LightGlow_init 125;
  let cell_size := 16 * 2 in
  let grid :=
    map (fun _ => map (fun _ => PrimFloat.zero) (range (rect_w SCREEN / cell_size)))
        (range (rect_h SCREEN / cell_size)) in
  Some {| DarkOverlay.surf := surf; DarkOverlay.light := light;
          DarkOverlay.cell_size := cell_size; DarkOverlay.grid := grid |}.

(** The body of the two loops of [draw] for the cell at [row], [col]; the
    state is the grid and the overlay's own surface. *)
Definition draw_cell (light : LightGlow.t) (size : Z) (pos : Z * Z) (row col : nat)
    (st : list (list float) * Surface) : option (list (list float) * Surface) :=
  let '(grid, surf) := st in
  k ← get_cell grid row col;
  let grid :=
    if py_lt PrimFloat.zero k
    then set_cell grid row col (clamp (PrimFloat.sub k decay_step) 25%float 255%float)
    else grid in
  v ← get_cell grid row col;
  k ← int v;
  let center := (Z.of_nat col * size + size / 2, Z.of_nat row * size + size / 2) in
  let '(grid, k) :=
    if py_lt (distance center pos) (float_of_int (LightGlow.radius light))
    then
      let color := 55 in
      (set_cell grid row col (float_of_int color),
       color - (11 - LightGlow.glow light) * 2)
    else (grid, k) in
  let k := clamp k 0 255 in
  Some (grid,
        draw_rect surf (rgb k k k)
          (Z.of_nat col * size, Z.of_nat row * size, size, size)).

Definition draw_row (light : LightGlow.t) (size : Z) (pos : Z * Z) (row : nat)
    (st : list (list float) * Surface) : option (list (list float) * Surface) :=
  r ← fst st !! row;
  for_each (seq 0 (length r)) (draw_cell light size pos row) st.

(** The two nested loops of [draw]: every cell decays, is revealed when the
    light reaches it, and is painted on the overlay's surface. *)
Definition draw_cells (self : DarkOverlay.t) (pos : Z * Z)
  : option (list (list float) * Surface) :=
  let size := DarkOverlay.cell_size self in
  for_each (seq 0 (length (DarkOverlay.grid self)))
    (draw_row (DarkOverlay.light self) size pos)
    (DarkOverlay.grid self, DarkOverlay.surf self).

(** [draw(self, surf, pos)]: the overlay after the call and the screen it
    has painted on. *)
Definition draw (self : DarkOverlay.t) (surf : Surface) (pos : Z * Z)
  : option (DarkOverlay.t * Surface) :=
  '(grid, dark) ← draw_cells self pos;
  let lsurf := LightGlow.surf (DarkOverlay.light self) in
  let dark := blit dark lsurf (topleft (get_rect_at lsurf pos)) BLEND_RGBA_MAX in
  let surf := blit surf dark (0, 0) BLEND_RGBA_MULT in
  Some ({| DarkOverlay.surf := dark; DarkOverlay.light := DarkOverlay.light self;
           DarkOverlay.cell_size := DarkOverlay.cell_size self;
           DarkOverlay.grid := grid |}, surf).

(** Successive frames: [draw] is called once per frame with the frame's
    scene and the light's position. *)
Fixpoint frames (self : DarkOverlay.t) (fs : list (Surface * (Z * Z)))
  : option DarkOverlay.t :=
  match fs with
  | [] => Some self
  | (scene, pos) :: fs' => '(self', _) ← draw self scene pos; frames self' fs'
  end.

(** Whether the light at [pos] reaches the cell: the test of line 199. *)
Definition lit (light : LightGlow.t) (size : Z) (pos : Z * Z) (row col : nat) : bool :=
  py_lt (distance (Z.of_nat col * size + size / 2, Z.of_nat row * size + size / 2) pos)
        (float_of_int (LightGlow.radius light)).

(** The ring that shows at a pixel of a mask painted ring after ring: the
    last one painted that covers the pixel. *)
Fixpoint top_ring (rs : list (Z * Z)) (center : Z * Z) (x y : Z) : option (Z * Z) :=
  match rs with
  | [] => None
  | ring :: rs' =>
      match top_ring rs' center x y with
      | Some t => Some t
      | None => if circle center (fst ring) x y then Some ring else None
      end
  end.

(** The glow mask in the words of the specification: a square of side
    [2 * radius] where each pixel shows the brightness of the innermost of
    the 25 rings that covers it, and black where no ring does. *)
Definition ring_mask (radius intensity ringStep : Z) (x y : Z) : Color :=
  if (0 <=? x) && (x <? radius * 2) && (0 <=? y) && (y <? radius * 2)
  then match top_ring (rings radius intensity ringStep)
               (radius * 2 / 2, radius * 2 / 2) x y with
       | Some ring => grey (snd ring)
       | None => grey 0
       end
  else grey 0.

Definition with_glow (l : LightGlow.t) (g : Z) : LightGlow.t :=
  {| LightGlow.radius := LightGlow.radius l; LightGlow.surf := LightGlow.surf l;
     LightGlow.glow := g |}.

Definition with_light (d : DarkOverlay.t) (l : LightGlow.t) : DarkOverlay.t :=
  {| DarkOverlay.surf := DarkOverlay.surf d; DarkOverlay.light := l;
     DarkOverlay.cell_size := DarkOverlay.cell_size d;
     DarkOverlay.grid := DarkOverlay.grid d |}.

(** The brightness of a cell after the frames [fs]. *)
Definition cell_after (light : LightGlow.t) (size : Z) (row col : nat)
    (fs : list (Surface * (Z * Z))) (k : float) : float :=
  fold_left (fun k f => cell_next (lit light size (snd f) row col) k) fs k.

(** The frames [fs] leave the cell in the dark. *)
Definition unlit (light : LightGlow.t) (size : Z) (row col : nat)
    (fs : list (Surface * (Z * Z))) : Prop :=
  Forall (fun f => lit light size (snd f) row col = false) fs.

(** ** Binary64 arithmetic on the brightness range

    The decay subtracts the literal 0.1 in binary64.  What the fog needs of
    that subtraction is derived here from the specification of the
    primitive floats: it never yields NaN, and on the binades from 16 to
    256 it lowers the value by 0.1 up to a rounding error of [2^11] units
    of [2^-56]. *)

(** Closed powers of two as numerals. *)
Local Ltac pow_numerals :=
  repeat match goal with
         | |- context [2 ^ ?n] =>
             let v := eval vm_compute in (2 ^ n) in
             lazymatch v with
             | Zpos _ => change (2 ^ n) with v
             end
         | H : context [2 ^ ?n] |- _ =>
             let v := eval vm_compute in (2 ^ n) in
             lazymatch v with
             | Zpos _ => change (2 ^ n) with v in H
             end
         end.

(** The number of binary digits of a mantissa. *)
Lemma digits2_pos_bounds (p : positive) :
  2 ^ (Zpos (digits2_pos p) - 1) <= Zpos p < 2 ^ Zpos (digits2_pos p).
Proof.
  induction p as [p IH|p IH|]; cbn [digits2_pos].
  - rewrite Pos2Z.inj_succ.
    replace (Z.succ (Zpos (digits2_pos p)) - 1) with (Zpos (digits2_pos p) - 1 + 1) by lia.
    rewrite Z.pow_succ_r by lia. rewrite Z.pow_add_r by lia. lia.
  - rewrite Pos2Z.inj_succ.
    replace (Z.succ (Zpos (digits2_pos p)) - 1) with (Zpos (digits2_pos p) - 1 + 1) by lia.
    rewrite Z.pow_succ_r by lia. rewrite Z.pow_add_r by lia. lia.
  - simpl. lia.
Qed.

(** Shifting a mantissa right halves it. *)
Lemma shr_1_m (mrs : shr_record) :
  0 <= shr_m mrs -> shr_m (shr_1 mrs) = shr_m mrs / 2.
Proof.
  destruct mrs as [m r s]. cbn [shr_m]. intros Hm. unfold shr_1.
  destruct m as [|[p|p|]|p]; cbn [shr_m].
  - reflexivity.
  - change (Z.pos p~1) with (2 * Z.pos p + 1).
    apply (Z.div_unique_pos _ 2 _ 1); lia.
  - change (Z.pos p~0) with (2 * Z.pos p).
    apply (Z.div_unique_pos _ 2 _ 0); lia.
  - reflexivity.
  - lia.
Qed.

Lemma pow2_xO (p : positive) : 2 ^ Zpos p~0 = 2 ^ Zpos p * 2 ^ Zpos p.
Proof. rewrite <- Z.pow_add_r by lia. f_equal. lia. Qed.

Lemma pow2_xI (p : positive) : 2 ^ Zpos p~1 = 2 * (2 ^ Zpos p * 2 ^ Zpos p).
Proof.
  rewrite <- Z.pow_add_r by lia. rewrite <- Z.pow_succ_r by lia. f_equal. lia.
Qed.

Lemma pow2_pos (n : Z) : 0 <= n -> 0 < 2 ^ n.
Proof. intros Hn. apply Z.pow_pos_nonneg; lia. Qed.

Lemma iter_shr_m (p : positive) :
  forall mrs, 0 <= shr_m mrs ->
  shr_m (SpecFloat.iter_pos shr_1 p mrs) = shr_m mrs / 2 ^ Zpos p.
Proof.
  induction p as [p IH|p IH|]; intros mrs Hm; cbn [SpecFloat.iter_pos].
  - pose proof (pow2_pos (Zpos p) ltac:(lia)) as Hp.
    assert (H1 : 0 <= shr_m (shr_1 mrs)) by (rewrite shr_1_m by lia; apply Z.div_pos; lia).
    assert (H2 : 0 <= shr_m (SpecFloat.iter_pos shr_1 p (shr_1 mrs))).
    { rewrite IH by lia. apply Z.div_pos; lia. }
    rewrite IH by lia. rewrite IH by lia. rewrite shr_1_m by lia.
    rewrite !Z.div_div by lia. rewrite pow2_xI. reflexivity.
  - pose proof (pow2_pos (Zpos p) ltac:(lia)) as Hp.
    assert (H2 : 0 <= shr_m (SpecFloat.iter_pos shr_1 p mrs)).
    { rewrite IH by lia. apply Z.div_pos; lia. }
    rewrite IH by lia. rewrite IH by lia.
    rewrite !Z.div_div by lia. rewrite pow2_xO. reflexivity.
  - rewrite shr_1_m by lia. reflexivity.
Qed.

Lemma iter_xO (d m : positive) : Zpos (Pos.iter xO m d) = Zpos m * 2 ^ Zpos d.
Proof.
  revert m. induction d as [|d IH] using Pos.peano_ind; intros m.
  - simpl. lia.
  - rewrite Pos.iter_succ. rewrite Pos2Z.inj_xO, IH. rewrite Pos2Z.inj_succ.
    rewrite Z.pow_succ_r by lia. lia.
Qed.

Lemma digits2_pos_unique (p : positive) (d : Z) :
  2 ^ (d - 1) <= Zpos p < 2 ^ d -> Zpos (digits2_pos p) = d.
Proof.
  intros [Hlo Hhi]. pose proof (digits2_pos_bounds p) as [Blo Bhi].
  assert (Hd : 0 < d).
  { destruct (Z.lt_ge_cases 0 d) as [H|H]; [exact H|].
    exfalso. assert (2 ^ d <= 2 ^ 0) by (apply Z.pow_le_mono_r; lia).
    change (2 ^ 0) with 1 in *. lia. }
  destruct (Z.lt_trichotomy (Zpos (digits2_pos p)) d) as [H|[H|H]]; [|exact H|].
  - exfalso. assert (2 ^ Zpos (digits2_pos p) <= 2 ^ (d - 1))
      by (apply Z.pow_le_mono_r; lia). lia.
  - exfalso. assert (2 ^ d <= 2 ^ (Zpos (digits2_pos p) - 1))
      by (apply Z.pow_le_mono_r; lia). lia.
Qed.

Lemma shr_record_of_loc_m (m : Z) (l : location) : shr_m (shr_record_of_loc m l) = m.
Proof. destruct l as [|[| |]]; reflexivity. Qed.

Lemma round_nearest_even_bounds (mx : Z) (lx : location) :
  mx <= round_nearest_even mx lx <= mx + 1.
Proof.
  unfold round_nearest_even. destruct lx as [|[| |]]; try lia.
  destruct (Z.even mx); lia.
Qed.

Lemma shr_nonneg (mrs : shr_record) (e n : Z) :
  0 <= shr_m mrs -> 0 <= shr_m (fst (shr mrs e n)).
Proof.
  intros Hm. unfold shr. destruct n as [|p|p]; cbn [fst]; try exact Hm.
  rewrite iter_shr_m by exact Hm. apply Z.div_pos; [exact Hm | apply pow2_pos; lia].
Qed.

(** Rounding a positive mantissa never yields NaN. *)
Lemma binary_round_aux_not_nan (prec emax : Z) (sx : bool) (mx : positive) (ex : Z)
    (lx : location) :
  binary_round_aux prec emax sx (Zpos mx) ex lx <> S754_nan.
Proof.
  unfold binary_round_aux, shr_fexp.
  pose proof (shr_nonneg (shr_record_of_loc (Zpos mx) lx) ex
                (fexp prec emax (Zdigits2 (Zpos mx) + ex) - ex)) as H1.
  rewrite shr_record_of_loc_m in H1. specialize (H1 ltac:(lia)).
  destruct (shr _ ex _) as [mrs' e'] eqn:E1. cbn [fst] in H1.
  pose proof (round_nearest_even_bounds (shr_m mrs') (loc_of_shr_record mrs')) as Hr.
  pose proof (shr_nonneg (shr_record_of_loc
                 (round_nearest_even (shr_m mrs') (loc_of_shr_record mrs')) loc_Exact) e'
                (fexp prec emax (Zdigits2 (round_nearest_even (shr_m mrs')
                    (loc_of_shr_record mrs')) + e') - e')) as H2.
  rewrite shr_record_of_loc_m in H2. specialize (H2 ltac:(lia)).
  destruct (shr _ e' _) as [mrs'' e''] eqn:E2. cbn [fst] in H2.
  destruct (shr_m mrs'') as [|p|p]; [discriminate | | lia].
  destruct (e'' <=? emax - prec); discriminate.
Qed.

Lemma SFsub_finite_not_nan (prec emax : Z) (sx sy : bool) (mx my : positive) (ex ey : Z) :
  SFsub prec emax (S754_finite sx mx ex) (S754_finite sy my ey) <> S754_nan.
Proof.
  unfold SFsub, binary_normalize.
  destruct (_ - _) as [|p|p]; [discriminate | |];
    unfold binary_round; destruct (shl_align _ _ _) as [mz ez];
    apply binary_round_aux_not_nan.
Qed.

(** The order of two numbers, read the other way round. *)
Lemma SFcompare_flip (x y : spec_float) :
  SFcompare y x = option_map CompOpp (SFcompare x y).
Proof.
  destruct x as [sx|sx| |sx mx ex], y as [sy|sy| |sy my ey]; cbn;
    try reflexivity;
    try (destruct sx; reflexivity); try (destruct sy; reflexivity);
    try (destruct sx, sy; reflexivity).
  assert (Hc : Pos.compare_cont Eq my mx = CompOpp (Pos.compare_cont Eq mx my)).
  { rewrite (Pos.compare_cont_antisym mx my Eq). reflexivity. }
  destruct sx, sy; cbn; try reflexivity;
    rewrite (Z.compare_antisym ey ex);
    destruct (ey ?= ex); cbn; try reflexivity;
    rewrite Hc; destruct (Pos.compare_cont Eq mx my); reflexivity.
Qed.

Lemma fexp_normal (d e : Z) : -1074 <= d + e - 53 -> fexp prec emax (d + e) = d + e - 53.
Proof. intros H. unfold fexp, SpecFloat.emin, prec, emax. lia. Qed.

Lemma shr_fexp_shift (m : positive) (e : Z) (l : location) (n : positive) :
  Zpos (digits2_pos m) = 53 + Zpos n -> -1074 <= e + Zpos n ->
  exists mrs, shr_fexp prec emax (Zpos m) e l = (mrs, e + Zpos n)
              /\ shr_m mrs = Zpos m / 2 ^ Zpos n.
Proof.
  intros Hd He. unfold shr_fexp. cbn [Zdigits2].
  rewrite fexp_normal by lia. rewrite Hd.
  replace (53 + Zpos n + e - 53 - e) with (Zpos n) by lia. cbn [shr].
  eexists. split; [reflexivity|].
  rewrite iter_shr_m by (rewrite shr_record_of_loc_m; lia).
  rewrite shr_record_of_loc_m. reflexivity.
Qed.

Lemma shr_fexp_exact (m : positive) (e : Z) :
  Zpos (digits2_pos m) = 53 -> -1074 <= e ->
  shr_fexp prec emax (Zpos m) e loc_Exact
  = ({| shr_m := Zpos m; shr_r := false; shr_s := false |}, e).
Proof.
  intros Hd He. unfold shr_fexp. cbn [Zdigits2].
  rewrite fexp_normal by lia. rewrite Hd.
  replace (53 + e - 53 - e) with 0 by lia. reflexivity.
Qed.

(** Rounding a mantissa of [53 + n] bits to binary64, in the normal range. *)
Lemma binary_round_normal (sx : bool) (ps : positive) (ex n : Z) :
  Zpos (digits2_pos ps) = 53 + n -> 0 < n -> -1074 <= ex + n -> ex + n + 1 <= 971 ->
  exists mr er mz,
    binary_round prec emax sx ps ex = S754_finite sx mr er
    /\ 2 ^ 52 <= Zpos mr < 2 ^ 53
    /\ (er = ex + n \/ er = ex + n + 1)
    /\ Zpos mr * 2 ^ (er - ex) = mz * 2 ^ n
    /\ Zpos ps / 2 ^ n <= mz <= Zpos ps / 2 ^ n + 1.
Proof.
  intros Hd Hn Hlo Hhi.
  destruct n as [|pn|pn]; try lia.
  pose proof (pow2_pos (Zpos pn) ltac:(lia)) as Hpow.
  pose proof (digits2_pos_bounds ps) as [Blo Bhi]. rewrite Hd in Blo, Bhi.
  replace (53 + Zpos pn - 1) with (52 + Zpos pn) in Blo by lia.
  rewrite Z.pow_add_r in Blo, Bhi by lia.
  set (q := Zpos ps / 2 ^ Zpos pn).
  assert (Hq : 2 ^ 52 <= q < 2 ^ 53).
  { split; [apply Z.div_le_lower_bound; lia | apply Z.div_lt_upper_bound; lia]. }
  unfold binary_round.
  assert (Hal : shl_align ps ex (fexp prec emax (Zpos (digits2_pos ps) + ex)) = (ps, ex)).
  { rewrite fexp_normal by lia. unfold shl_align. rewrite Hd.
    replace (53 + Zpos pn + ex - 53 - ex) with (Zpos pn) by lia. reflexivity. }
  rewrite Hal. unfold binary_round_aux.
  destruct (shr_fexp_shift ps ex loc_Exact pn Hd Hlo) as (mrs' & E1 & Hm1).
  rewrite E1. fold q in Hm1.
  pose proof (round_nearest_even_bounds (shr_m mrs') (loc_of_shr_record mrs')) as Hr.
  set (mz := round_nearest_even (shr_m mrs') (loc_of_shr_record mrs')) in *.
  rewrite Hm1 in Hr.
  pose proof (pow2_pos 52 ltac:(lia)) as H52.
  assert (Hmz : 0 < mz) by lia.
  destruct mz as [|pz|pz] eqn:Emz; try lia.
  destruct (Z.lt_ge_cases (Zpos pz) (2 ^ 53)) as [Hsmall|Hbig].
  - assert (Hdz : Zpos (digits2_pos pz) = 53).
    { apply digits2_pos_unique. change (53 - 1) with 52. lia. }
    rewrite (shr_fexp_exact pz (ex + Zpos pn) Hdz Hlo). cbn [shr_m].
    assert (Hle : (ex + Zpos pn <=? emax - prec) = true)
      by (apply Z.leb_le; unfold emax, prec; lia).
    rewrite Hle. exists pz, (ex + Zpos pn), (Zpos pz).
    split; [reflexivity|]. split; [lia|]. split; [left; reflexivity|].
    split; [|lia]. f_equal. f_equal. lia.
  - assert (Hz : Zpos pz = 2 ^ 53) by lia.
    assert (Hdz : Zpos (digits2_pos pz) = 53 + 1).
    { apply digits2_pos_unique. rewrite Hz. change (53 + 1 - 1) with 53.
      split; [lia|]. apply Z.pow_lt_mono_r; lia. }
    destruct (shr_fexp_shift pz (ex + Zpos pn) loc_Exact 1%positive Hdz ltac:(lia))
      as (mrs'' & E2 & Hm2).
    rewrite E2, Hm2, Hz. change (2 ^ 53 / 2 ^ 1) with (Zpos (2 ^ 52)%positive).
    cbv iota beta.
    assert (Hle : (ex + Zpos pn + 1 <=? emax - prec) = true)
      by (apply Z.leb_le; unfold emax, prec; lia).
    rewrite Hle. exists (2 ^ 52)%positive, (ex + Zpos pn + 1), (Zpos pz).
    split; [reflexivity|]. split; [split; [reflexivity | reflexivity]|].
    split; [right; reflexivity|]. split; [|lia].
    replace (ex + Zpos pn + 1 - ex) with (Zpos pn + 1) by lia.
    rewrite Z.pow_add_r by lia. rewrite Hz.
    change (Zpos (2 ^ 52)%positive) with (2 ^ 52). change (2 ^ 1) with 2.
    change (2 ^ 53) with (2 ^ 52 * 2). lia.
Qed.

Lemma shl_align_down (m : positive) (e e' : Z) :
  e' < e -> Zpos (fst (shl_align m e e')) = Zpos m * 2 ^ (e - e').
Proof.
  intros H. unfold shl_align. destruct (e' - e) as [|p|p] eqn:E; try lia.
  cbn [fst]. rewrite iter_xO. f_equal. f_equal. lia.
Qed.

Lemma shl_align_same (m : positive) (e : Z) : fst (shl_align m e e) = m.
Proof. unfold shl_align. rewrite Z.sub_diag. reflexivity. Qed.

Lemma digits2_pos_between (p : positive) (lo hi : Z) :
  0 < lo -> 2 ^ (lo - 1) <= Zpos p < 2 ^ hi -> lo <= Zpos (digits2_pos p) <= hi.
Proof.
  intros Hlo [H1 H2]. pose proof (digits2_pos_bounds p) as [B1 B2].
  split.
  - destruct (Z.le_gt_cases lo (Zpos (digits2_pos p))) as [H|H]; [exact H|].
    exfalso. assert (2 ^ Zpos (digits2_pos p) <= 2 ^ (lo - 1))
      by (apply Z.pow_le_mono_r; lia). lia.
  - destruct (Z.le_gt_cases (Zpos (digits2_pos p)) hi) as [H|H]; [exact H|].
    exfalso. assert (2 ^ hi <= 2 ^ (Zpos (digits2_pos p) - 1))
      by (apply Z.pow_le_mono_r; lia). lia.
Qed.

(** Subtracting 0.1 from a binary64 number between 16 and 256: the result,
    in units of [2^-56], is within [2^11] of the exact difference. *)
Lemma SFsub_tenth (m : positive) (e : Z) :
  -48 <= e <= -45 -> 2 ^ 52 <= Zpos m < 2 ^ 53 ->
  exists mr er,
    SFsub prec emax (S754_finite false m e) (S754_finite false tenth_m (-56))
    = S754_finite false mr er
    /\ -49 <= er <= -45
    /\ 2 ^ 52 <= Zpos mr < 2 ^ 53
    /\ Zpos m * 2 ^ (e + 56) - Zpos tenth_m - 2048
       <= Zpos mr * 2 ^ (er + 56)
       <= Zpos m * 2 ^ (e + 56) - Zpos tenth_m + 2048.
Proof.
  intros He Hm. unfold SFsub.
  replace (Z.min e (-56)) with (-56) by lia. cbn [cond_Zopp].
  rewrite shl_align_down by lia. rewrite shl_align_same.
  replace (e - -56) with (e + 56) by lia.
  assert (Hcase : e = -48 \/ e = -47 \/ e = -46 \/ e = -45) by lia.
  destruct Hcase as [-> | [-> | [-> | ->]]]; cbn [Z.add Z.opp Pos.add Z.pos_sub] in *.
  all: pow_numerals; unfold tenth_m in *.
  all: match goal with
       | |- context [binary_normalize _ _ ?s _ _] =>
           destruct s as [|ps|ps] eqn:ES; [lia| |lia]
       end.
  all: unfold binary_normalize.
  all: match goal with
       | Hs : ?v = Zpos ?p |- _ =>
           match v with
           | _ * ?c - _ =>
               let d := eval vm_compute in (Z.log2 c) in
               pose proof (digits2_pos_between p (52 + d) (53 + d) ltac:(lia)) as HD
           end
       end.
  all: cbn [Z.add Z.sub Z.opp Pos.add Z.pos_sub Pos.succ Pos.pred_double Pos.sub] in HD.
  all: pow_numerals.
  all: specialize (HD ltac:(lia)).
  all: match type of HD with
       | ?lo <= _ <= ?hi =>
           assert (HD' : Zpos (digits2_pos ps) = 53 + (lo - 53)
                         \/ Zpos (digits2_pos ps) = 53 + (hi - 53)) by lia
       end.
  all: destruct HD' as [HD'|HD'].
  all: destruct (binary_round_normal false ps (-56) _ HD' ltac:(lia) ltac:(lia) ltac:(lia))
         as (mr & er & mz & Hres & Hmr & Her & Hval & Hmz).
  all: exists mr, er; split; [exact Hres|].
  all: cbn [Z.add Z.sub Z.opp Pos.add Z.pos_sub Pos.succ Pos.pred_double Pos.sub] in *.
  all: pow_numerals.
  all: match type of Hmz with
       | ?a / ?c <= _ <= _ =>
           pose proof (Z.div_mod a c ltac:(lia)) as Hdm;
           pose proof (Z.mod_pos_bound a c ltac:(lia)) as Hmb
       end.
  all: destruct Her as [Her|Her]; rewrite Her in *; clear Her.
  all: cbn [Z.add Z.sub Z.opp Pos.add Z.pos_sub Pos.succ Pos.pred_double Pos.sub] in *.
  all: pow_numerals.
  all: lia.
Qed.

(** On the binades from 8 to 256 the order of binary64 is the order of the
    values counted in units of [2^-56]. *)
Lemma SFcompare_units (m1 : positive) (e1 : Z) (m2 : positive) (e2 : Z) :
  -49 <= e1 <= -45 -> 2 ^ 52 <= Zpos m1 < 2 ^ 53 ->
  -49 <= e2 <= -45 -> 2 ^ 52 <= Zpos m2 < 2 ^ 53 ->
  SFcompare (S754_finite false m1 e1) (S754_finite false m2 e2)
  = Some (Zpos m1 * 2 ^ (e1 + 56) ?= Zpos m2 * 2 ^ (e2 + 56)).
Proof.
  intros He1 Hm1 He2 Hm2. cbn [SFcompare]. f_equal.
  assert (H1 : e1 = -49 \/ e1 = -48 \/ e1 = -47 \/ e1 = -46 \/ e1 = -45) by lia.
  assert (H2 : e2 = -49 \/ e2 = -48 \/ e2 = -47 \/ e2 = -46 \/ e2 = -45) by lia.
  destruct H1 as [-> | [-> | [-> | [-> | ->]]]];
    destruct H2 as [-> | [-> | [-> | [-> | ->]]]];
    cbn [Z.compare Pos.compare Pos.compare_cont Z.add Z.opp Pos.add Z.pos_sub CompOpp];
    pow_numerals;
    try (symmetry; apply Z.compare_lt_iff; lia);
    try (symmetry; apply Z.compare_gt_iff; lia).
  all: change (Pos.compare_cont Eq m1 m2) with (Pos.compare m1 m2).
  all: destruct (Pos.compare_spec m1 m2) as [H|H|H]; symmetry;
    [apply Z.compare_eq_iff | apply Z.compare_lt_iff | apply Z.compare_gt_iff]; lia.
Qed.

Lemma valid_normal (s : bool) (m : positive) (e : Z) :
  valid_binary (S754_finite s m e) = true -> -1074 < e ->
  2 ^ 52 <= Zpos m < 2 ^ 53.
Proof.
  intros Hv He. cbn [SpecFloat.valid_binary] in Hv. unfold bounded in Hv.
  apply andb_true_iff in Hv. destruct Hv as [Hc _].
  unfold canonical_mantissa in Hc. apply Z.eqb_eq in Hc.
  unfold fexp, SpecFloat.emin, prec, emax in Hc.
  assert (Hd : Zpos (digits2_pos m) = 53) by lia.
  pose proof (digits2_pos_bounds m) as Hb. rewrite Hd in Hb.
  change (53 - 1) with 52 in Hb. exact Hb.
Qed.

Lemma float_rep (k : float) :
  PrimFloat.leb 25 k = true -> PrimFloat.leb k 255 = true ->
  exists m e,
    Prim2SF k = S754_finite false m e
    /\ -48 <= e <= -45
    /\ 2 ^ 52 <= Zpos m < 2 ^ 53
    /\ 25 * 2 ^ 56 <= Zpos m * 2 ^ (e + 56) <= 255 * 2 ^ 56.
Proof.
  intros H0 H1. rewrite FloatAxioms.leb_spec in H0, H1.
  pose proof (FloatAxioms.Prim2SF_valid k) as Hv.
  change (Prim2SF 25) with (S754_finite false 7036874417766400 (-48)) in H0.
  change (Prim2SF 255) with (S754_finite false 8972014882652160 (-45)) in H1.
  destruct (Prim2SF k) as [s|s| |s m e];
    try (unfold SFleb in H0, H1; cbn [SFcompare] in H0, H1; discriminate).
  - unfold SFleb in H0, H1; cbn [SFcompare] in H0, H1. destruct s; discriminate.
  - destruct s; [unfold SFleb in H0; cbn [SFcompare] in H0; discriminate|].
    assert (He : -48 <= e <= -45).
    { unfold SFleb in H0, H1; cbn [SFcompare] in H0, H1.
      destruct (Z.compare_spec (-48) e), (Z.compare_spec e (-45)); try discriminate; lia. }
    pose proof (valid_normal false m e Hv ltac:(lia)) as Hm.
    exists m, e. split; [reflexivity|]. split; [exact He|]. split; [exact Hm|].
    unfold SFleb in H0, H1.
    rewrite SFcompare_units in H0 by (pow_numerals; lia).
    rewrite SFcompare_units in H1 by (pow_numerals; lia).
    change (-48 + 56) with 8 in H0. change (-45 + 56) with 11 in H1.
    pow_numerals.
    match type of H0 with
    | context [?a ?= ?b] => destruct (Z.compare_spec a b) as [E|E|E]; try discriminate
    end.
    all: match type of H1 with
         | context [?a ?= ?b] => destruct (Z.compare_spec a b) as [E'|E'|E']; try discriminate
         end.
    all: lia.
Qed.

Lemma SFcompare_none (x y : spec_float) :
  SFcompare x y = None -> x = S754_nan \/ y = S754_nan.
Proof.
  destruct x as [sx|sx| |sx mx ex], y as [sy|sy| |sy my ey]; cbn [SFcompare];
    try discriminate; tauto.
Qed.

(** Two numbers that are not NaN are ordered one way or the other. *)
Lemma ltb_false_leb (x y : float) :
  Prim2SF x <> S754_nan -> Prim2SF y <> S754_nan ->
  PrimFloat.ltb x y = false -> PrimFloat.leb y x = true.
Proof.
  intros Hx Hy. rewrite FloatAxioms.ltb_spec, FloatAxioms.leb_spec.
  unfold SFltb, SFleb. rewrite (SFcompare_flip (Prim2SF x) (Prim2SF y)).
  destruct (SFcompare (Prim2SF x) (Prim2SF y)) as [[| |]|] eqn:E; cbn;
    try reflexivity; try discriminate.
  destruct (SFcompare_none _ _ E); contradiction.
Qed.

(** A number between 0 and 255 is a zero or a positive finite number. *)
Lemma range_cases (k : float) :
  PrimFloat.leb 0 k = true -> PrimFloat.leb k 255 = true ->
  (exists s, Prim2SF k = S754_zero s) \/ (exists m e, Prim2SF k = S754_finite false m e).
Proof.
  intros H0 H1. rewrite FloatAxioms.leb_spec in H0, H1.
  change (Prim2SF 0) with (S754_zero false) in H0.
  change (Prim2SF 255) with (S754_finite false 8972014882652160 (-45)) in H1.
  destruct (Prim2SF k) as [s|s| |s m e]; unfold SFleb in H0, H1.
  - left. exists s. reflexivity.
  - destruct s; [discriminate H0 | discriminate H1].
  - discriminate H0.
  - destruct s; [discriminate H0|]. right. exists m, e. reflexivity.
Qed.

Lemma positive_finite (k : float) :
  PrimFloat.ltb 0 k = true -> PrimFloat.leb k 255 = true ->
  exists m e, Prim2SF k = S754_finite false m e.
Proof.
  intros H0 H1. rewrite FloatAxioms.ltb_spec in H0. rewrite FloatAxioms.leb_spec in H1.
  change (Prim2SF 0) with (S754_zero false) in H0.
  change (Prim2SF 255) with (S754_finite false 8972014882652160 (-45)) in H1.
  destruct (Prim2SF k) as [s|s| |s m e]; unfold SFltb in H0; unfold SFleb in H1.
  - discriminate H0.
  - destruct s; [discriminate H0 | discriminate H1].
  - discriminate H0.
  - destruct s; [discriminate H0|]. exists m, e. reflexivity.
Qed.

Lemma floor_positive (k : float) :
  PrimFloat.leb 25 k = true -> PrimFloat.ltb 0 k = true /\ PrimFloat.leb 0 k = true.
Proof.
  intros H. rewrite FloatAxioms.leb_spec in H.
  rewrite FloatAxioms.ltb_spec, FloatAxioms.leb_spec.
  change (Prim2SF 0) with (S754_zero false).
  change (Prim2SF 25) with (S754_finite false 7036874417766400 (-48)) in H.
  destruct (Prim2SF k) as [s|s| |s m e]; unfold SFleb in H; unfold SFltb, SFleb.
  - discriminate H.
  - destruct s; [discriminate H|]. split; reflexivity.
  - discriminate H.
  - destruct s; [discriminate H|]. split; reflexivity.
Qed.

Lemma above_floor (k : float) :
  PrimFloat.ltb 25 k = true -> PrimFloat.leb 25 k = true.
Proof.
  rewrite FloatAxioms.ltb_spec, FloatAxioms.leb_spec. unfold SFltb, SFleb.
  destruct (SFcompare _ _) as [[| |]|]; try discriminate. reflexivity.
Qed.

Lemma int_finite (k : float) :
  PrimFloat.leb 0 k = true -> PrimFloat.leb k 255 = true -> exists v, int k = Some v.
Proof.
  intros H0 H1. unfold int.
  destruct (range_cases k H0 H1) as [[s ->]|(m & e & ->)]; eauto.
Qed.

Lemma sub_step_not_nan (k : float) (m : positive) (e : Z) :
  Prim2SF k = S754_finite false m e ->
  Prim2SF (PrimFloat.sub k decay_step) <> S754_nan.
Proof.
  intros Hk. rewrite FloatAxioms.sub_spec, Hk.
  change (Prim2SF decay_step) with (S754_finite false tenth_m (-56)).
  apply SFsub_finite_not_nan.
Qed.

(** A positive brightness decays to something between the floor and 255. *)
Lemma decay_floor_range (k : float) :
  PrimFloat.ltb 0 k = true -> PrimFloat.leb k 255 = true ->
  PrimFloat.leb 25 (decay k) = true /\ PrimFloat.leb (decay k) 255 = true.
Proof.
  intros Hpos Hhi. destruct (positive_finite k Hpos Hhi) as (m & e & Hk).
  pose proof (sub_step_not_nan k m e Hk) as Hv.
  unfold decay. change (py_lt PrimFloat.zero k) with (PrimFloat.ltb 0 k). rewrite Hpos.
  unfold clamp, py_lt, float_lt.
  destruct (PrimFloat.ltb (PrimFloat.sub k decay_step) 25) eqn:E1; [split; reflexivity|].
  destruct (PrimFloat.ltb 255 (PrimFloat.sub k decay_step)) eqn:E2; [split; reflexivity|].
  split.
  - apply ltb_false_leb; [exact Hv | discriminate | exact E1].
  - apply ltb_false_leb; [discriminate | exact Hv | exact E2].
Qed.

Lemma decay_range (k : float) :
  PrimFloat.leb 0 k = true -> PrimFloat.leb k 255 = true ->
  PrimFloat.leb 0 (decay k) = true /\ PrimFloat.leb (decay k) 255 = true.
Proof.
  intros H0 H1. destruct (PrimFloat.ltb 0 k) eqn:Hpos.
  - destruct (decay_floor_range k Hpos H1) as [Hlo Hhi].
    split; [apply floor_positive; exact Hlo | exact Hhi].
  - unfold decay. change (py_lt PrimFloat.zero k) with (PrimFloat.ltb 0 k). rewrite Hpos.
    split; assumption.
Qed.

(** A decay step on a brightness between the floor and 255. *)
Lemma decay_fog (k : float) :
  PrimFloat.leb 25 k = true -> PrimFloat.leb k 255 = true ->
  PrimFloat.leb 25 (decay k) = true
  /\ PrimFloat.leb (decay k) 255 = true
  /\ PrimFloat.leb (decay k) k = true
  /\ (PrimFloat.ltb 25 k = true -> PrimFloat.ltb (decay k) k = true)
  /\ (decay k = 25%float \/ units (decay k) <= units k - step_units)
  /\ 25 * 2 ^ 56 <= units k <= 255 * 2 ^ 56.
Proof.
  intros Hlo Hhi.
  destruct (float_rep k Hlo Hhi) as (m & e & Hk & He & Hm & Hu).
  destruct (floor_positive k Hlo) as [Hpos _].
  destruct (SFsub_tenth m e He Hm) as (mr & er & Hsub & Her & Hmr & Hur).
  assert (Hv : Prim2SF (PrimFloat.sub k decay_step) = S754_finite false mr er).
  { rewrite FloatAxioms.sub_spec, Hk. exact Hsub. }
  assert (Huk : units k = Zpos m * 2 ^ (e + 56)) by (unfold units; rewrite Hk; reflexivity).
  assert (Huv : units (PrimFloat.sub k decay_step) = Zpos mr * 2 ^ (er + 56))
    by (unfold units; rewrite Hv; reflexivity).
  assert (H25 : Prim2SF 25 = S754_finite false 7036874417766400 (-48)) by reflexivity.
  assert (H255 : Prim2SF 255 = S754_finite false 8972014882652160 (-45)) by reflexivity.
  assert (Hm52 : 2 ^ 52 = 4503599627370496) by reflexivity.
  assert (Hm53 : 2 ^ 53 = 9007199254740992) by reflexivity.
  assert (Hc1 : PrimFloat.ltb (PrimFloat.sub k decay_step) 25
                = (Zpos mr * 2 ^ (er + 56) <? 25 * 2 ^ 56)).
  { rewrite FloatAxioms.ltb_spec, Hv, H25. unfold SFltb.
    rewrite SFcompare_units by lia. change (-48 + 56) with 8.
    unfold Z.ltb. pow_numerals. reflexivity. }
  assert (Hc2 : PrimFloat.ltb 255 (PrimFloat.sub k decay_step) = false).
  { rewrite FloatAxioms.ltb_spec, Hv, H255. unfold SFltb.
    rewrite SFcompare_units by lia. change (-45 + 56) with 11.
    pow_numerals.
    match goal with
    | |- context [?a ?= ?b] => destruct (Z.compare_spec a b) as [E|E|E]
    end; try reflexivity. unfold tenth_m in Hur. pow_numerals. lia. }
  rewrite Huk. split; [|split; [|split; [|split; [|split; [|exact Hu]]]]].
  all: unfold decay; change (py_lt PrimFloat.zero k) with (PrimFloat.ltb 0 k);
    rewrite Hpos; unfold clamp, py_lt, float_lt; rewrite Hc1, Hc2.
  all: destruct (Z.ltb_spec (Zpos mr * 2 ^ (er + 56)) (25 * 2 ^ 56)) as [Hlt|Hge].
  - reflexivity.
  - rewrite FloatAxioms.leb_spec, Hv, H25. unfold SFleb.
    rewrite SFcompare_units by lia. change (-48 + 56) with 8.
    match goal with
    | |- context [?a ?= ?b] => destruct (Z.compare_spec a b) as [E|E|E]
    end; try reflexivity. pow_numerals. lia.
  - reflexivity.
  - rewrite FloatAxioms.leb_spec, Hv, H255. unfold SFleb.
    rewrite SFcompare_units by lia. change (-45 + 56) with 11.
    match goal with
    | |- context [?a ?= ?b] => destruct (Z.compare_spec a b) as [E|E|E]
    end; try reflexivity. unfold tenth_m in Hur. pow_numerals. lia.
  - exact Hlo.
  - rewrite FloatAxioms.leb_spec, Hv, Hk. unfold SFleb.
    rewrite SFcompare_units by lia.
    match goal with
    | |- context [?a ?= ?b] => destruct (Z.compare_spec a b) as [E|E|E]
    end; try reflexivity. unfold tenth_m in Hur. lia.
  - intros H. exact H.
  - intros _. rewrite FloatAxioms.ltb_spec, Hv, Hk. unfold SFltb.
    rewrite SFcompare_units by lia.
    match goal with
    | |- context [?a ?= ?b] => destruct (Z.compare_spec a b) as [E|E|E]
    end; try reflexivity; unfold tenth_m in Hur; lia.
  - left. reflexivity.
  - right. rewrite Huv. unfold step_units, tenth_m in *. lia.
Qed.

Lemma decay_at_floor : decay 25%float = 25%float.
Proof. reflexivity. Qed.

(** After [n] decay steps a brightness is at the floor, or it has lost [n]
    times the least step. *)
Lemma iter_decay_fog (n : nat) (k : float) :
  PrimFloat.leb 25 k = true -> PrimFloat.leb k 255 = true ->
  PrimFloat.leb 25 (Nat.iter n decay k) = true
  /\ PrimFloat.leb (Nat.iter n decay k) 255 = true
  /\ (Nat.iter n decay k = 25%float
      \/ units (Nat.iter n decay k) <= units k - Z.of_nat n * step_units).
Proof.
  intros Hlo Hhi. induction n as [|n (IHlo & IHhi & IH)].
  - split; [exact Hlo|]. split; [exact Hhi|]. right. simpl. lia.
  - rewrite Nat.iter_succ.
    destruct (decay_fog _ IHlo IHhi) as (Dlo & Dhi & _ & _ & Dstep & _).
    split; [exact Dlo|]. split; [exact Dhi|].
    destruct IH as [IH|IH].
    + left. rewrite IH. apply decay_at_floor.
    + destruct Dstep as [D|D]; [left; exact D|]. right. lia.
Qed.

(** Every brightness between the floor and 255 is exactly 25 after 2301
    decay steps, and after any larger number of them. *)
Lemma decay_settles (n : nat) (k : float) :
  PrimFloat.leb 25 k = true -> PrimFloat.leb k 255 = true -> (2301 <= n)%nat ->
  Nat.iter n decay k = 25%float.
Proof.
  intros Hlo Hhi Hn.
  destruct (iter_decay_fog n k Hlo Hhi) as (Ilo & Ihi & [I|I]); [exact I|].
  destruct (decay_fog _ Ilo Ihi) as (_ & _ & _ & _ & _ & Hun).
  destruct (decay_fog _ Hlo Hhi) as (_ & _ & _ & _ & _ & Huk).
  exfalso. unfold step_units in I. pow_numerals. lia.
Qed.

Lemma along_iter (P : float -> bool) (n : nat) (k : float) :
  along P n k = true -> forall m, (m <= n)%nat -> P (Nat.iter m decay k) = true.
Proof.
  revert k. induction n as [|n IH]; intros k H m Hm.
  - assert (m = O) as -> by lia. simpl in H |- *.
    apply andb_true_iff in H. tauto.
  - simpl in H. apply andb_true_iff in H. destruct H as [Hk Hn].
    destruct m as [|m]; [exact Hk|].
    rewrite Nat.iter_succ_r. apply IH; [exact Hn | lia].
Qed.

Lemma range_length (n : Z) : length (range n) = Z.to_nat n.
Proof. unfold range. rewrite length_map. apply length_seq. Qed.

Lemma range_lookup (n : Z) (i : nat) :
  (i < Z.to_nat n)%nat -> range n !! i = Some (Z.of_nat i).
Proof.
  intros Hi. unfold range. rewrite list_lookup_fmap.
  rewrite lookup_seq_lt by lia. reflexivity.
Qed.

(** ** Brightness *)

Lemma brightness_int (k : float) : brightness k -> exists v, int k = Some v.
Proof. intros [H0 H1]. apply int_finite; assumption. Qed.

Lemma brightness_decay (k : float) : brightness k -> brightness (decay k).
Proof. intros [H0 H1]. apply decay_range; assumption. Qed.

Lemma brightness_next (l : bool) (k : float) : brightness k -> brightness (cell_next l k).
Proof.
  intros Hk. destruct l; unfold cell_next;
    [split; reflexivity | apply brightness_decay; exact Hk].
Qed.

(** ** The grid as a two-dimensional array *)

Lemma get_set_cell (g : list (list float)) (r c r' c' : nat) (v : float) :
  get_cell (set_cell g r c v) r' c'
  = if decide (r' = r /\ c' = c) then (fun _ => v) <$> get_cell g r c
    else get_cell g r' c'.
Proof.
  unfold get_cell, set_cell.
  destruct (g !! r) as [row|] eqn:Hr.
  - case_decide as Hd.
    + destruct Hd as [-> ->].
      rewrite list_lookup_insert_eq by (eapply lookup_lt_Some; eassumption).
      simpl. destruct (row !! c) as [k|] eqn:Hc; simpl.
      * apply list_lookup_insert_eq. eapply lookup_lt_Some; eassumption.
      * apply lookup_ge_None. rewrite length_insert. apply lookup_ge_None. exact Hc.
    + destruct (decide (r' = r)) as [->|Hne].
      * rewrite list_lookup_insert_eq by (eapply lookup_lt_Some; eassumption).
        rewrite Hr. simpl. apply list_lookup_insert_ne. intros ->. tauto.
      * rewrite list_lookup_insert_ne by congruence. reflexivity.
  - case_decide as Hd; [|reflexivity].
    destruct Hd as [-> ->]. rewrite Hr. reflexivity.
Qed.

Lemma set_cell_same (g : list (list float)) (r c : nat) (k : float) :
  get_cell g r c = Some k -> set_cell g r c k = g.
Proof.
  unfold get_cell, set_cell. intros H.
  destruct (g !! r) as [row|] eqn:Hr; [|reflexivity]. simpl in H.
  rewrite (list_insert_id row c k H). apply list_insert_id. exact Hr.
Qed.

Lemma set_cell_twice (g : list (list float)) (r c : nat) (a b : float) :
  set_cell (set_cell g r c a) r c b = set_cell g r c b.
Proof.
  unfold set_cell. destruct (g !! r) as [row|] eqn:Hr.
  - rewrite list_lookup_insert_eq by (eapply lookup_lt_Some; eassumption).
    rewrite list_insert_insert_eq. rewrite list_insert_insert_eq. reflexivity.
  - rewrite Hr. reflexivity.
Qed.

Lemma get_cell_row (g : list (list float)) (r c : nat) (k : float) :
  get_cell g r c = Some k -> exists row, g !! r = Some row /\ row !! c = Some k.
Proof.
  unfold get_cell. destruct (g !! r) as [row|]; [|discriminate].
  intros H. exists row. split; [reflexivity | exact H].
Qed.

Lemma in_range_set_cell (g : list (list float)) (r c : nat) (v : float) :
  in_range g -> brightness v -> in_range (set_cell g r c v).
Proof.
  intros Hg Hv r' c' k. rewrite get_set_cell. case_decide.
  - destruct (get_cell g r c); simpl; [|discriminate]. intros [= <-]. exact Hv.
  - apply Hg.
Qed.

Lemma draw_rect_pixel (s : Surface) (col : Color) (r : Rect) (x y : Z) :
  pixel (draw_rect s col r) x y
  = if inside s x y && in_rect r x y then col else pixel s x y.
Proof.
  destruct r as [[[rx ry] rw] rh]. simpl.
  destruct (inside s x y), (rx <=? x), (x <? rx + rw), (ry <=? y), (y <? ry + rh);
    reflexivity.
Qed.

Lemma draw_rect_size (s : Surface) (col : Color) (r : Rect) :
  width (draw_rect s col r) = width s /\ height (draw_rect s col r) = height s.
Proof. destruct r as [[[rx ry] rw] rh]. split; reflexivity. Qed.

(** Two cells share no pixel. *)
Lemma cell_rect_disjoint (size : Z) (r c r' c' : nat) (x y : Z) :
  in_rect (cell_rect size r c) x y = true ->
  in_rect (cell_rect size r' c') x y = true ->
  r' = r /\ c' = c.
Proof.
  unfold in_rect, cell_rect. intros H H'.
  repeat (apply andb_true_iff in H; destruct H as [H ?]).
  repeat (apply andb_true_iff in H'; destruct H' as [H' ?]).
  split; nia.
Qed.

(** ** The loop body and the two loops of [draw] *)

(** On a grid in range the loop body never raises; it stores [cell_next]
    and paints the cell's square with [cell_grey]. *)
Lemma draw_cell_in_range (light : LightGlow.t) (size : Z) (pos : Z * Z)
    (r c : nat) (g : list (list float)) (s : Surface) (k : float) :
  get_cell g r c = Some k -> brightness k ->
  draw_cell light size pos r c (g, s)
  = Some (set_cell g r c (cell_next (lit light size pos r c) k),
          draw_rect s (grey (cell_grey (LightGlow.glow light) (lit light size pos r c) k))
                    (cell_rect size r c)).
Proof.
  intros Hget Hk.
  destruct (brightness_int (decay k) (brightness_decay k Hk)) as (v & Hv).
  unfold draw_cell. rewrite Hget. simpl.
  assert (Hmid : get_cell
            (if py_lt PrimFloat.zero k
             then set_cell g r c (clamp (PrimFloat.sub k decay_step) 25%float 255%float)
             else g) r c = Some (decay k)).
  { unfold decay. destruct (py_lt PrimFloat.zero k).
    - rewrite get_set_cell. rewrite decide_True by tauto. rewrite Hget. reflexivity.
    - exact Hget. }
  rewrite Hmid. simpl. rewrite Hv. simpl.
  unfold lit, cell_grey, cell_next, grey, cell_rect.
  destruct (py_lt (distance _ pos) _).
  - f_equal. f_equal. unfold decay.
    destruct (py_lt PrimFloat.zero k); [apply set_cell_twice | reflexivity].
  - rewrite Hv. simpl. f_equal. f_equal. unfold decay.
    destruct (py_lt PrimFloat.zero k); [reflexivity|].
    symmetry. apply set_cell_same. exact Hget.
Qed.

Lemma set_cell_length (g : list (list float)) (r c : nat) (v : float) :
  length (set_cell g r c v) = length g.
Proof. unfold set_cell. destruct (g !! r); [apply length_insert | reflexivity]. Qed.

(** The inner loop, over the columns [cols] of row [r]. *)
Lemma draw_cols_in_range (light : LightGlow.t) (size : Z) (pos : Z * Z) (r : nat)
    (cols : list nat) :
  forall (g : list (list float)) (s : Surface),
  in_range g -> NoDup cols -> (forall c, c ∈ cols -> is_Some (get_cell g r c)) ->
  exists g' s',
    for_each cols (draw_cell light size pos r) (g, s) = Some (g', s')
    /\ length g' = length g
    /\ (forall r' c', get_cell g' r' c'
          = if decide (r' = r /\ c' ∈ cols)
            then cell_next (lit light size pos r c') <$> get_cell g r' c'
            else get_cell g r' c')
    /\ width s' = width s /\ height s' = height s
    /\ (forall x y, (forall c, c ∈ cols -> in_rect (cell_rect size r c) x y = false) ->
          pixel s' x y = pixel s x y)
    /\ (forall c k x y, c ∈ cols -> get_cell g r c = Some k ->
          inside s x y = true -> in_rect (cell_rect size r c) x y = true ->
          pixel s' x y
          = grey (cell_grey (LightGlow.glow light) (lit light size pos r c) k)).
Proof.
  induction cols as [|c0 cols IH]; intros g s Hg Hnd Hin.
  - exists g, s. simpl. repeat split; try reflexivity.
    + intros r' c'. case_decide as Hd; [|reflexivity].
      destruct Hd as [_ Hd]. inversion Hd.
    + intros c k x y Hc. inversion Hc.
  - apply NoDup_cons in Hnd. destruct Hnd as [Hc0 Hnd].
    destruct (Hin c0 ltac:(left)) as [k0 Hk0].
    pose proof (draw_cell_in_range light size pos r c0 g s k0 Hk0 (Hg _ _ _ Hk0)) as Hstep.
    set (g1 := set_cell g r c0 (cell_next (lit light size pos r c0) k0)) in Hstep.
    set (s1 := draw_rect s _ _) in Hstep.
    assert (Hg1 : in_range g1).
    { apply in_range_set_cell; [exact Hg | apply brightness_next; eapply Hg; eassumption]. }
    assert (Hget1 : forall r' c', get_cell g1 r' c'
              = if decide (r' = r /\ c' = c0)
                then Some (cell_next (lit light size pos r c0) k0)
                else get_cell g r' c').
    { intros r' c'. unfold g1. rewrite get_set_cell. rewrite Hk0. reflexivity. }
    destruct (IH g1 s1 Hg1 Hnd) as (g' & s' & Hrun & Hlen & Hget & Hw & Hh & Hout & Hpix).
    { intros c Hc. rewrite Hget1. case_decide; [eauto | apply Hin; right; exact Hc]. }
    exists g', s'. split; [|split; [|split; [|split; [|split; [|split]]]]].
    + cbn [for_each]. rewrite Hstep. exact Hrun.
    + rewrite Hlen. apply set_cell_length.
    + intros r' c'. rewrite Hget. rewrite !Hget1.
      destruct (decide (r' = r)) as [->|Hr].
      * destruct (decide (c' = c0)) as [->|Hc].
        -- rewrite (decide_False (P := r = r /\ c0 ∈ cols)) by tauto.
           rewrite decide_True by tauto.
           rewrite (decide_True (P := r = r /\ c0 ∈ c0 :: cols)) by (split; [reflexivity | left]).
           rewrite Hk0. reflexivity.
        -- rewrite (decide_False (P := r = r /\ c' = c0)) by tauto.
           destruct (decide (c' ∈ cols)) as [Hc'|Hc'].
           ++ rewrite decide_True by tauto.
              rewrite (decide_True (P := r = r /\ c' ∈ c0 :: cols))
                by (split; [reflexivity | right; exact Hc']).
              reflexivity.
           ++ rewrite decide_False by tauto.
              rewrite (decide_False (P := r = r /\ c' ∈ c0 :: cols)); [reflexivity|].
              intros [_ Hx]. apply elem_of_cons in Hx. tauto.
      * rewrite !decide_False by tauto. reflexivity.
    + rewrite Hw. apply draw_rect_size.
    + rewrite Hh. apply draw_rect_size.
    + intros x y Hno. rewrite Hout by (intros c Hc; apply Hno; right; exact Hc).
      unfold s1. rewrite draw_rect_pixel. rewrite (Hno c0) by left.
      rewrite andb_false_r. reflexivity.
    + intros c k x y Hc Hk Hins Hrect.
      apply elem_of_cons in Hc. destruct Hc as [->|Hc].
      * rewrite Hout.
        -- unfold s1. rewrite draw_rect_pixel. rewrite Hins, Hrect. simpl.
           rewrite Hk0 in Hk. injection Hk as ->. reflexivity.
        -- intros c Hc. destruct (in_rect (cell_rect size r c) x y) eqn:E; [|reflexivity].
           destruct (cell_rect_disjoint size r c0 r c x y Hrect E) as [_ ->]. tauto.
      * apply Hpix; try assumption.
        rewrite Hget1. rewrite decide_False; [exact Hk|].
        intros [_ ->]. tauto.
Qed.

(** The outer loop, over the rows [rows]. *)
Lemma draw_rows_in_range (light : LightGlow.t) (size : Z) (pos : Z * Z) (rows : list nat) :
  forall (g : list (list float)) (s : Surface),
  in_range g -> NoDup rows -> (forall r, r ∈ rows -> (r < length g)%nat) ->
  exists g' s',
    for_each rows (draw_row light size pos) (g, s) = Some (g', s')
    /\ length g' = length g
    /\ (forall r' c', get_cell g' r' c'
          = if decide (r' ∈ rows)
            then cell_next (lit light size pos r' c') <$> get_cell g r' c'
            else get_cell g r' c')
    /\ width s' = width s /\ height s' = height s
    /\ (forall x y,
          (forall r c, r ∈ rows -> is_Some (get_cell g r c) ->
                       in_rect (cell_rect size r c) x y = false) ->
          pixel s' x y = pixel s x y)
    /\ (forall r c k x y, r ∈ rows -> get_cell g r c = Some k ->
          inside s x y = true -> in_rect (cell_rect size r c) x y = true ->
          pixel s' x y
          = grey (cell_grey (LightGlow.glow light) (lit light size pos r c) k)).
Proof.
  induction rows as [|r0 rows IH]; intros g s Hg Hnd Hin.
  - exists g, s. cbn [for_each]. repeat split; try reflexivity.
    intros r c k x y Hr. inversion Hr.
  - apply NoDup_cons in Hnd. destruct Hnd as [Hr0 Hnd].
    destruct (lookup_lt_is_Some_2 g r0 (Hin r0 ltac:(left))) as [row0 Hrow0].
    destruct (draw_cols_in_range light size pos r0 (seq 0 (length row0)) g s Hg)
      as (g1 & s1 & Hrun1 & Hlen1 & Hget1 & Hw1 & Hh1 & Hout1 & Hpix1).
    { apply NoDup_seq. }
    { intros c Hc. apply elem_of_seq in Hc. unfold get_cell. rewrite Hrow0. simpl.
      apply lookup_lt_is_Some_2. lia. }
    assert (Hget1' : forall r' c', get_cell g1 r' c'
              = if decide (r' = r0)
                then cell_next (lit light size pos r0 c') <$> get_cell g r' c'
                else get_cell g r' c').
    { intros r' c'. rewrite Hget1. destruct (decide (r' = r0)) as [->|Hne].
      - case_decide as Hd; [reflexivity|].
        assert (Hnone : get_cell g r0 c' = None).
        { unfold get_cell. rewrite Hrow0. simpl. apply lookup_ge_None.
          destruct (le_lt_dec (length row0) c') as [Hle|Hlt]; [exact Hle|].
          exfalso. apply Hd. split; [reflexivity|]. apply elem_of_seq. lia. }
        rewrite Hnone. reflexivity.
      - rewrite decide_False by tauto. reflexivity. }
    assert (Hg1 : in_range g1).
    { intros r' c' k'. rewrite Hget1'. case_decide; [|apply Hg].
      destruct (get_cell g r' c') as [k|] eqn:Hk; simpl; [|discriminate].
      intros [= <-]. apply brightness_next. eapply Hg. eassumption. }
    destruct (IH g1 s1 Hg1 Hnd) as (g' & s' & Hrun & Hlen & Hget & Hw & Hh & Hout & Hpix).
    { intros r Hr. rewrite Hlen1. apply Hin. right. exact Hr. }
    exists g', s'. split; [|split; [|split; [|split; [|split; [|split]]]]].
    + assert (Hrow : draw_row light size pos r0 (g, s) = Some (g1, s1)).
      { unfold draw_row. change (fst (g, s)) with g. rewrite Hrow0. exact Hrun1. }
      cbn [for_each]. rewrite Hrow. exact Hrun.
    + congruence.
    + intros r' c'. rewrite Hget. rewrite !Hget1'.
      destruct (decide (r' = r0)) as [->|Hne].
      * rewrite (decide_False (P := r0 ∈ rows)) by exact Hr0.
        rewrite (decide_True (P := r0 ∈ r0 :: rows)) by left. reflexivity.
      * destruct (decide (r' ∈ rows)) as [Hr'|Hr'].
        -- rewrite (decide_True (P := r' ∈ r0 :: rows)) by (right; exact Hr').
           reflexivity.
        -- rewrite (decide_False (P := r' ∈ r0 :: rows)); [reflexivity|].
           intros Hx. apply elem_of_cons in Hx. tauto.
    + congruence.
    + congruence.
    + intros x y Hno. rewrite Hout.
      * apply Hout1. intros c Hc. apply Hno; [left|].
        apply elem_of_seq in Hc. unfold get_cell. rewrite Hrow0. simpl.
        apply lookup_lt_is_Some_2. lia.
      * intros r c Hr [k Hk]. apply Hno; [right; exact Hr|].
        rewrite Hget1' in Hk. rewrite decide_False in Hk by (intros ->; tauto). eauto.
    + intros r c k x y Hr Hk Hins Hrect.
      apply elem_of_cons in Hr. destruct Hr as [->|Hr].
      * rewrite Hout.
        -- apply (Hpix1 c k x y); try assumption.
           apply elem_of_seq. unfold get_cell in Hk. rewrite Hrow0 in Hk. simpl in Hk.
           apply lookup_lt_Some in Hk. lia.
        -- intros r c2 Hr _.
           destruct (in_rect (cell_rect size r c2) x y) eqn:E; [|reflexivity].
           destruct (cell_rect_disjoint size r0 c r c2 x y Hrect E) as [-> _]. tauto.
      * apply Hpix; try assumption.
        -- rewrite Hget1'. rewrite decide_False by (intros ->; tauto). exact Hk.
        -- unfold inside in Hins |- *. rewrite Hw1, Hh1. exact Hins.
Qed.

(** The two loops of [draw] on a grid in range: they never raise, every
    cell holds [cell_next] of what it held and its square is painted with
    [cell_grey]. *)
Lemma draw_cells_in_range (self : DarkOverlay.t) (pos : Z * Z) :
  in_range (DarkOverlay.grid self) ->
  exists g' s',
    draw_cells self pos = Some (g', s')
    /\ in_range g'
    /\ (forall r c, get_cell g' r c
          = cell_next (lit (DarkOverlay.light self) (DarkOverlay.cell_size self) pos r c)
              <$> get_cell (DarkOverlay.grid self) r c)
    /\ width s' = width (DarkOverlay.surf self)
    /\ height s' = height (DarkOverlay.surf self)
    /\ (forall r c k x y, get_cell (DarkOverlay.grid self) r c = Some k ->
          inside (DarkOverlay.surf self) x y = true ->
          in_rect (cell_rect (DarkOverlay.cell_size self) r c) x y = true ->
          pixel s' x y
          = grey (cell_grey (LightGlow.glow (DarkOverlay.light self))
                    (lit (DarkOverlay.light self) (DarkOverlay.cell_size self) pos r c) k)).
Proof.
  intros Hg.
  destruct (draw_rows_in_range (DarkOverlay.light self) (DarkOverlay.cell_size self) pos
              (seq 0 (length (DarkOverlay.grid self)))
              (DarkOverlay.grid self) (DarkOverlay.surf self) Hg)
    as (g' & s' & Hrun & Hlen & Hget & Hw & Hh & Hout & Hpix).
  { apply NoDup_seq. }
  { intros r Hr. apply elem_of_seq in Hr. lia. }
  assert (Hget' : forall r c, get_cell g' r c
            = cell_next (lit (DarkOverlay.light self) (DarkOverlay.cell_size self) pos r c)
                <$> get_cell (DarkOverlay.grid self) r c).
  { intros r c. rewrite Hget. case_decide as Hd; [reflexivity|].
    assert (Hnone : get_cell (DarkOverlay.grid self) r c = None).
    { unfold get_cell.
      destruct (DarkOverlay.grid self !! r) as [row|] eqn:Hrow; [|reflexivity].
      exfalso. apply Hd. apply elem_of_seq. apply lookup_lt_Some in Hrow. lia. }
    rewrite Hnone. reflexivity. }
  exists g', s'. split; [exact Hrun|]. split; [|split; [exact Hget'|]].
  - intros r c k'. rewrite Hget'.
    destruct (get_cell (DarkOverlay.grid self) r c) as [k|] eqn:Hk; simpl; [|discriminate].
    intros [= <-]. apply brightness_next. eapply Hg. eassumption.
  - split; [exact Hw|]. split; [exact Hh|].
    intros r c k x y Hk Hins Hrect. apply (Hpix r c k x y); try assumption.
    apply elem_of_seq. unfold get_cell in Hk.
    destruct (DarkOverlay.grid self !! r) as [row|] eqn:Hrow; [|discriminate].
    apply lookup_lt_Some in Hrow. lia.
Qed.

(** ** The glow mask *)

Lemma clamp_int (v lo hi : Z) :
  lo <= hi -> clamp v lo hi = Z.max lo (Z.min v hi).
Proof.
  intros H. unfold clamp, py_lt, int_lt.
  destruct (Z.ltb_spec v lo); [lia|]. destruct (Z.ltb_spec hi v); lia.
Qed.

Lemma Surface_new_some (w h : Z) :
  match Surface_new (w, h) with
  | Some s => width s = w /\ height s = h /\ 0 <= w /\ 0 <= h
              /\ forall x y, pixel s x y = grey 0
  | None => w < 0 \/ h < 0
  end.
Proof.
  unfold Surface_new.
  destruct (Z.ltb_spec w 0); simpl; [lia|].
  destruct (Z.ltb_spec h 0); simpl; [lia|].
  repeat split; assumption.
Qed.

Lemma glow_layers_rings (radius glow step : Z) (s : Surface) :
  fold_left (glow_layer radius glow step) (range 25) s
  = fold_left (fun s ring => draw_circle s (grey (snd ring)) (get_rect_center s) (fst ring))
              (rings radius glow step) s.
Proof.
  unfold rings. generalize (range 25). intros l. revert s.
  induction l as [|i l IH]; intros s; [reflexivity|].
  simpl. rewrite <- IH. reflexivity.
Qed.

Lemma paint_rings_size (rs : list (Z * Z)) (s : Surface) :
  get_size (fold_left (fun s ring => draw_circle s (grey (snd ring)) (get_rect_center s)
                                       (fst ring)) rs s)
  = get_size s.
Proof.
  revert s. induction rs as [|ring rs IH]; intros s; [reflexivity|].
  cbn [fold_left]. rewrite IH. reflexivity.
Qed.

(** Painting ring after ring leaves at each pixel the last ring that covers
    it: the inner rings overwrite the outer ones. *)
Lemma paint_rings_pixel (rs : list (Z * Z)) (s : Surface) (x y : Z) :
  pixel (fold_left (fun s ring => draw_circle s (grey (snd ring)) (get_rect_center s) (fst ring))
                   rs s) x y
  = if inside s x y
    then match top_ring rs (get_rect_center s) x y with
         | Some ring => grey (snd ring)
         | None => pixel s x y
         end
    else pixel s x y.
Proof.
  revert s. induction rs as [|ring rs IH]; intros s.
  - simpl. destruct (inside s x y); reflexivity.
  - cbn [fold_left top_ring]. rewrite IH.
    change (inside (draw_circle s (grey (snd ring)) (get_rect_center s) (fst ring)) x y)
      with (inside s x y).
    change (get_rect_center (draw_circle s (grey (snd ring)) (get_rect_center s) (fst ring)))
      with (get_rect_center s).
    destruct (inside s x y) eqn:Hin; simpl.
    + destruct (top_ring rs (get_rect_center s) x y); [reflexivity|].
      rewrite Hin. simpl. destruct (circle (get_rect_center s) (fst ring) x y); reflexivity.
    + rewrite Hin. reflexivity.
Qed.

Lemma rings_length (radius intensity step : Z) : length (rings radius intensity step) = 25%nat.
Proof. reflexivity. Qed.

Lemma rings_lookup (radius intensity step : Z) (i : nat) :
  (i < 25)%nat ->
  rings radius intensity step !! i
  = Some (radius - Z.of_nat i * step, clamp (Z.of_nat i * intensity) 0 255).
Proof.
  intros Hi. unfold rings. rewrite list_lookup_fmap.
  rewrite range_lookup by (simpl; lia). reflexivity.
Qed.

(** A mask painted by the ring loop on a fresh surface is the ring mask. *)
Lemma glow_mask_pixels (radius glow step : Z) (s : Surface) (x y : Z) :
  Surface_new (radius * 2, radius * 2) = Some s ->
  pixel (fold_left (glow_layer radius glow step) (range 25) s) x y
  = ring_mask radius glow step x y.
Proof.
  intros Hs. pose proof (Surface_new_some (radius * 2) (radius * 2)) as H.
  rewrite Hs in H. destruct H as (Hw & Hh & _ & _ & Hpx).
  rewrite glow_layers_rings, paint_rings_pixel. unfold ring_mask, inside, get_rect_center.
  rewrite Hw, Hh, Hpx.
  destruct ((0 <=? x) && (x <? radius * 2) && (0 <=? y) && (y <? radius * 2)); reflexivity.
Qed.

Lemma update_glow_some (self : LightGlow.t) :
  match update_glow self with
  | Some self' =>
      0 <= LightGlow.radius self
      /\ LightGlow.radius self' = LightGlow.radius self
      /\ LightGlow.glow self' = clamp (LightGlow.glow self + 1) 0 255
      /\ get_size (LightGlow.surf self')
         = (LightGlow.radius self * 2, LightGlow.radius self * 2)
      /\ forall x y, pixel (LightGlow.surf self') x y
                     = ring_mask (LightGlow.radius self) (LightGlow.glow self') 3 x y
  | None => LightGlow.radius self < 0
  end.
Proof.
  unfold update_glow.
  pose proof (Surface_new_some (LightGlow.radius self * 2) (LightGlow.radius self * 2)) as H.
  destruct (Surface_new _) as [s|] eqn:Hs; cbn [mbind option_bind]; [|lia].
  destruct H as (Hw & Hh & H0 & _ & _). cbn [LightGlow.radius LightGlow.glow LightGlow.surf].
  split; [lia|]. split; [reflexivity|]. split; [reflexivity|]. split.
  - rewrite glow_layers_rings, paint_rings_size. unfold get_size.
    rewrite Hw, Hh. reflexivity.
  - intros x y. apply glow_mask_pixels. exact Hs.
Qed.

Lemma LightGlow_init_surf_some (radius : Z) :
  match LightGlow_init_surf radius with
  | Some m =>
      0 <= radius
      /\ get_size m = (radius * 2, radius * 2)
      /\ forall x y, pixel m x y = ring_mask radius 11 5 x y
  | None => radius < 0
  end.
Proof.
  unfold LightGlow_init_surf.
  pose proof (Surface_new_some (radius * 2) (radius * 2)) as H.
  destruct (Surface_new _) as [s|] eqn:Hs; cbn [mbind option_bind]; [|lia].
  destruct H as (Hw & Hh & H0 & _ & _).
  split; [lia|]. split.
  - rewrite glow_layers_rings, paint_rings_size. unfold get_size.
    rewrite Hw, Hh. reflexivity.
  - intros x y. apply glow_mask_pixels. exact Hs.
Qed.

Lemma LightGlow_init_some (radius : Z) :
  match LightGlow_init radius with
  | Some self =>
      0 <= radius
      /\ LightGlow.radius self = radius
      /\ LightGlow.glow self = 12
      /\ get_size (LightGlow.surf self) = (radius * 2, radius * 2)
      /\ forall x y, pixel (LightGlow.surf self) x y = ring_mask radius 12 3 x y
  | None => radius < 0
  end.
Proof.
  unfold LightGlow_init.
  pose proof (LightGlow_init_surf_some radius) as H.
  destruct (LightGlow_init_surf radius) as [m|]; simpl; [|exact H].
  destruct H as (H0 & _ & _).
  pose proof (update_glow_some {| LightGlow.radius := radius; LightGlow.surf := m;
                                  LightGlow.glow := 11 |}) as H.
  destruct (update_glow _) as [self|]; simpl in H |- *; [|lia].
  destruct H as (_ & Hr & Hg & Hs & Hp).
  assert (Hg12 : LightGlow.glow self = 12) by (rewrite Hg; reflexivity).
  rewrite Hg12 in Hp. repeat split; assumption.
Qed.

(** [update_glow] called again and again on a glow that was constructed. *)
Lemma update_glow_iterate (self : LightGlow.t) (n : nat) :
  0 <= LightGlow.radius self ->
  exists self',
    iterate update_glow n self = Some self'
    /\ LightGlow.radius self' = LightGlow.radius self
    /\ LightGlow.glow self' = Nat.iter n (fun g => clamp (g + 1) 0 255) (LightGlow.glow self)
    /\ (n <> O ->
        get_size (LightGlow.surf self')
        = (LightGlow.radius self * 2, LightGlow.radius self * 2)).
Proof.
  revert self. induction n as [|n IH]; intros self Hr.
  - exists self. repeat split; tauto.
  - pose proof (update_glow_some self) as H. cbn [iterate].
    destruct (update_glow self) as [s1|]; [|lia].
    destruct H as (_ & Hr1 & Hg1 & Hs1 & _).
    destruct (IH s1 ltac:(lia)) as (s' & Hrun & Hr' & Hg' & Hs').
    exists s'. split; [exact Hrun|]. split; [congruence|]. split.
    + rewrite Hg', Hg1. rewrite Nat.iter_succ_r. reflexivity.
    + intros _. destruct n as [|n].
      * simpl in Hrun. injection Hrun as <-. exact Hs1.
      * rewrite Hs' by discriminate. rewrite Hr1. reflexivity.
Qed.

Lemma glow_count (n : nat) (g : Z) :
  0 <= g <= 255 ->
  Nat.iter n (fun g => clamp (g + 1) 0 255) g = Z.min (g + Z.of_nat n) 255.
Proof.
  revert g. induction n as [|n IH]; intros g Hg.
  - simpl. lia.
  - rewrite Nat.iter_succ_r. rewrite IH; rewrite clamp_int by lia; lia.
Qed.

Lemma top_ring_spec (rs : list (Z * Z)) (center : Z * Z) (x y : Z) (ring : Z * Z) :
  top_ring rs center x y = Some ring ->
  exists i, rs !! i = Some ring
    /\ circle center (fst ring) x y = true
    /\ forall j ring', (i < j)%nat -> rs !! j = Some ring' ->
         circle center (fst ring') x y = false.
Proof.
  revert ring. induction rs as [|r0 rs IH]; intros ring H; [discriminate|].
  cbn [top_ring] in H. destruct (top_ring rs center x y) as [t|] eqn:Ht.
  - injection H as <-. destruct (IH t eq_refl) as (i & Hi & Hc & Hlast).
    exists (S i). split; [exact Hi|]. split; [exact Hc|].
    intros [|j] ring' Hj Hl; [lia|]. apply (Hlast j); [lia | exact Hl].
  - destruct (circle center (fst r0) x y) eqn:Hc; [|discriminate].
    injection H as <-. exists O. split; [reflexivity|]. split; [exact Hc|].
    intros [|j] ring' Hj Hl; [lia|]. simpl in Hl.
    clear IH Hj Hc. revert j Hl. induction rs as [|r1 rs IH']; intros j Hl.
    + rewrite lookup_nil in Hl. discriminate.
    + cbn [top_ring] in Ht. destruct (top_ring rs center x y) eqn:Ht'; [discriminate|].
      destruct (circle center (fst r1) x y) eqn:Hc1; [discriminate|].
      destruct j as [|j]; [injection Hl as <-; exact Hc1|].
      apply (IH' eq_refl j). exact Hl.
Qed.


(** C7: every call of [update_glow] adds exactly 1 to the glow counter,
    clamps it to [0,255] and regenerates the mask for the new counter; a
    counter that has reached 255 stays at 255 in every later call. *)
Theorem update_glow_counter (self : LightGlow.t) :
  match update_glow self with
  | Some self' =>
      LightGlow.glow self' = clamp (LightGlow.glow self + 1) 0 255
      /\ 0 <= LightGlow.glow self' <= 255
      /\ (-1 <= LightGlow.glow self < 255 ->
          LightGlow.glow self' = LightGlow.glow self + 1)
      /\ (forall x y, pixel (LightGlow.surf self') x y
                      = ring_mask (LightGlow.radius self) (LightGlow.glow self') 3 x y)
      /\ forall n, exists self'',
           iterate update_glow n self' = Some self''
           /\ LightGlow.glow self'' = Z.min (LightGlow.glow self' + Z.of_nat n) 255
           /\ (LightGlow.glow self' = 255 -> LightGlow.glow self'' = 255)
  | None => LightGlow.radius self < 0
  end.
Proof.
  pose proof (update_glow_some self) as H.
  destruct (update_glow self) as [self'|]; [|exact H].
  destruct H as (Hr & Hr' & Hg & _ & Hp).
  assert (Hb : 0 <= LightGlow.glow self' <= 255) by (rewrite Hg, clamp_int; lia).
  split; [exact Hg|]. split; [exact Hb|]. split; [|split; [exact Hp|]].
  - intros Hlt. rewrite Hg, clamp_int; lia.
  - intros n. destruct (update_glow_iterate self' n ltac:(lia)) as (s'' & Hrun & _ & Hg'' & _).
    exists s''. split; [exact Hrun|]. rewrite Hg'', glow_count by exact Hb.
    split; [reflexivity | lia].
Qed.

(** C8: the glow mask is a square of side [2 * radius], for every radius
    and every intensity: the mask the constructor paints, the mask of the
    constructed object, and the mask after any number of [update_glow]
    calls; [update_glow] never changes the radius.  (A negative radius is
    refused by [pygame.Surface]: no glow is constructed.) *)
Theorem glow_mask_size (radius : Z) :
  match LightGlow_init_surf radius with
  | Some m => get_size m = (2 * radius, 2 * radius)
  | None => radius < 0
  end
  /\ match LightGlow_init radius with
     | Some self =>
         LightGlow.radius self = radius
         /\ get_size (LightGlow.surf self) = (2 * radius, 2 * radius)
         /\ forall n, exists self',
              iterate update_glow n self = Some self'
              /\ LightGlow.radius self' = radius
              /\ get_size (LightGlow.surf self') = (2 * radius, 2 * radius)
     | None => radius < 0
     end
  /\ forall surf glow,
       match update_glow {| LightGlow.radius := radius; LightGlow.surf := surf;
                            LightGlow.glow := glow |} with
       | Some self' =>
           LightGlow.radius self' = radius
           /\ get_size (LightGlow.surf self') = (2 * radius, 2 * radius)
       | None => radius < 0
       end.
Proof.
  replace (2 * radius) with (radius * 2) by lia.
  split; [|split].
  - pose proof (LightGlow_init_surf_some radius) as H.
    destruct (LightGlow_init_surf radius); [tauto | exact H].
  - pose proof (LightGlow_init_some radius) as H.
    destruct (LightGlow_init radius) as [self|]; [|exact H].
    destruct H as (H0 & Hr & _ & Hs & _).
    split; [exact Hr|]. split; [exact Hs|].
    intros n. destruct (update_glow_iterate self n ltac:(lia)) as (s' & Hrun & Hr' & _ & Hs').
    exists s'. split; [exact Hrun|]. split; [congruence|].
    destruct n as [|n].
    + simpl in Hrun. injection Hrun as <-. exact Hs.
    + rewrite Hs' by discriminate. rewrite Hr. reflexivity.
  - intros surf glow.
    pose proof (update_glow_some {| LightGlow.radius := radius; LightGlow.surf := surf;
                                    LightGlow.glow := glow |}) as H.
    destruct (update_glow _) as [self'|]; [|exact H].
    cbn [LightGlow.radius] in H. tauto.
Qed.

(** ** The fog grid *)

Lemma DarkOverlay_init_some :
  match DarkOverlay_init with
  | Some self =>
      DarkOverlay.cell_size self = 32
      /\ DarkOverlay.grid self
         = map (fun _ => map (fun _ => PrimFloat.zero) (range (fst SIZE / 32)))
               (range (snd SIZE / 32))
      /\ get_size (DarkOverlay.surf self) = SIZE
      /\ LightGlow.radius (DarkOverlay.light self) = 125
      /\ LightGlow.glow (DarkOverlay.light self) = 12
  | None => fst SIZE < 0 \/ snd SIZE < 0
  end.
Proof.
  unfold DarkOverlay_init, SCREEN, rect_w, rect_h, rect_size.
  destruct SIZE as [w h]. cbn [fst snd].
  pose proof (Surface_new_some w h) as H.
  destruct (Surface_new (w, h)) as [s|]; cbn [mbind option_bind]; [|exact H].
  pose proof (LightGlow_init_some 125) as Hl.
  destruct (LightGlow_init 125) as [l|]; cbn [mbind option_bind]; [|lia].
  cbn [DarkOverlay.cell_size DarkOverlay.grid DarkOverlay.surf DarkOverlay.light].
  unfold get_size. destruct H as (-> & -> & _). tauto.
Qed.

(** C5, as the code has it: the fog grid has [floor (width / 32)] columns
    and [floor (height / 32)] rows, with a cell size of 32, for every
    screen size [pygame.Surface] accepts; this is the ceiling of the
    quotient exactly when the dimension is a multiple of 32. *)
Theorem grid_dimensions :
  match DarkOverlay_init with
  | Some self =>
      DarkOverlay.cell_size self = 32
      /\ length (DarkOverlay.grid self) = Z.to_nat (snd SIZE / 32)
      /\ Forall (fun row => length row = Z.to_nat (fst SIZE / 32)) (DarkOverlay.grid self)
      /\ (fst SIZE / 32 = ceil_div (fst SIZE) 32 <-> fst SIZE mod 32 = 0)
      /\ (snd SIZE / 32 = ceil_div (snd SIZE) 32 <-> snd SIZE mod 32 = 0)
  | None => fst SIZE < 0 \/ snd SIZE < 0
  end.
Proof.
  pose proof DarkOverlay_init_some as H.
  destruct DarkOverlay_init as [self|]; [|exact H].
  destruct H as (Hc & Hg & _). split; [exact Hc|]. rewrite Hg.
  split; [|split; [|split]].
  - rewrite length_map. apply range_length.
  - apply Forall_forall. intros row Hrow. apply list_elem_of_In in Hrow.
    apply in_map_iff in Hrow. destruct Hrow as (i & <- & _).
    rewrite length_map. apply range_length.
  - unfold ceil_div.
    pose proof (Z.div_mod (fst SIZE) 32 ltac:(lia)).
    pose proof (Z.mod_pos_bound (fst SIZE) 32 ltac:(lia)).
    pose proof (Z.div_mod (- fst SIZE) 32 ltac:(lia)).
    pose proof (Z.mod_pos_bound (- fst SIZE) 32 ltac:(lia)). lia.
  - unfold ceil_div.
    pose proof (Z.div_mod (snd SIZE) 32 ltac:(lia)).
    pose proof (Z.mod_pos_bound (snd SIZE) 32 ltac:(lia)).
    pose proof (Z.div_mod (- snd SIZE) 32 ltac:(lia)).
    pose proof (Z.mod_pos_bound (- snd SIZE) 32 ltac:(lia)). lia.
Qed.

Lemma init_in_range (self : DarkOverlay.t) :
  DarkOverlay_init = Some self -> in_range (DarkOverlay.grid self).
Proof.
  intros Hinit. pose proof DarkOverlay_init_some as H. rewrite Hinit in H.
  destruct H as (_ & Hg & _). intros r c k Hk.
  destruct (get_cell_row _ _ _ _ Hk) as (row & Hrow & Hc).
  rewrite Hg in Hrow. apply list_elem_of_lookup_2, list_elem_of_In in Hrow.
  apply in_map_iff in Hrow. destruct Hrow as (i & <- & _).
  apply list_elem_of_lookup_2, list_elem_of_In in Hc.
  apply in_map_iff in Hc. destruct Hc as (j & <- & _).
  split; reflexivity.
Qed.

(** ** One frame, many frames *)

Lemma draw_in_range (self : DarkOverlay.t) (scene : Surface) (pos : Z * Z) :
  in_range (DarkOverlay.grid self) ->
  exists self' screen' dark,
    draw self scene pos = Some (self', screen')
    /\ draw_cells self pos = Some (DarkOverlay.grid self', dark)
    /\ in_range (DarkOverlay.grid self')
    /\ DarkOverlay.light self' = DarkOverlay.light self
    /\ DarkOverlay.cell_size self' = DarkOverlay.cell_size self
    /\ (forall r c, get_cell (DarkOverlay.grid self') r c
          = cell_next (lit (DarkOverlay.light self) (DarkOverlay.cell_size self) pos r c)
              <$> get_cell (DarkOverlay.grid self) r c)
    /\ DarkOverlay.surf self'
       = blit dark (LightGlow.surf (DarkOverlay.light self))
           (topleft (get_rect_at (LightGlow.surf (DarkOverlay.light self)) pos))
           BLEND_RGBA_MAX
    /\ screen' = blit scene (DarkOverlay.surf self') (0, 0) BLEND_RGBA_MULT.
Proof.
  intros Hg.
  destruct (draw_cells_in_range self pos Hg) as (g' & dark & Hrun & Hg' & Hget & _).
  eexists _, _, dark. split.
  - unfold draw. rewrite Hrun. reflexivity.
  - cbn [DarkOverlay.grid DarkOverlay.light DarkOverlay.cell_size DarkOverlay.surf].
    split; [exact Hrun|]. split; [exact Hg'|]. split; [reflexivity|].
    split; [reflexivity|]. split; [exact Hget|]. split; reflexivity.
Qed.

Lemma cell_after_cons (light : LightGlow.t) (size : Z) (r c : nat)
    (f : Surface * (Z * Z)) (fs : list (Surface * (Z * Z))) (k : float) :
  cell_after light size r c (f :: fs) k
  = cell_after light size r c fs (cell_next (lit light size (snd f) r c) k).
Proof. reflexivity. Qed.

Lemma cell_after_snoc (light : LightGlow.t) (size : Z) (r c : nat)
    (f : Surface * (Z * Z)) (fs : list (Surface * (Z * Z))) (k : float) :
  cell_after light size r c (fs ++ [f]) k
  = cell_next (lit light size (snd f) r c) (cell_after light size r c fs k).
Proof. unfold cell_after. rewrite fold_left_app. reflexivity. Qed.

Lemma cell_after_unlit (light : LightGlow.t) (size : Z) (r c : nat)
    (fs : list (Surface * (Z * Z))) (k : float) :
  unlit light size r c fs ->
  cell_after light size r c fs k = Nat.iter (length fs) decay k.
Proof.
  intros H. revert k. induction H as [|f fs Hf _ IH]; intros k; [reflexivity|].
  rewrite cell_after_cons, Hf, IH. cbn [length cell_next].
  rewrite Nat.iter_succ_r. reflexivity.
Qed.

(** Any number of frames on a grid in range: no call raises, and each cell
    holds [cell_after] of what it held. *)
Lemma frames_in_range (fs : list (Surface * (Z * Z))) :
  forall self : DarkOverlay.t,
  in_range (DarkOverlay.grid self) ->
  exists self',
    frames self fs = Some self'
    /\ in_range (DarkOverlay.grid self')
    /\ DarkOverlay.light self' = DarkOverlay.light self
    /\ DarkOverlay.cell_size self' = DarkOverlay.cell_size self
    /\ forall r c, get_cell (DarkOverlay.grid self') r c
         = cell_after (DarkOverlay.light self) (DarkOverlay.cell_size self) r c fs
             <$> get_cell (DarkOverlay.grid self) r c.
Proof.
  induction fs as [|[scene pos] fs IH]; intros self Hg.
  - exists self. split; [reflexivity|]. split; [exact Hg|].
    split; [reflexivity|]. split; [reflexivity|].
    intros r c. destruct (get_cell _ r c); reflexivity.
  - destruct (draw_in_range self scene pos Hg)
      as (s1 & scr & dark & Hrun1 & _ & Hg1 & Hl1 & Hc1 & Hget1 & _).
    destruct (IH s1 Hg1) as (s' & Hrun & Hg' & Hl & Hc & Hget).
    exists s'. split; [|split; [exact Hg'|split; [congruence|split; [congruence|]]]].
    + cbn [frames]. rewrite Hrun1. exact Hrun.
    + intros r c. rewrite Hget, Hget1, Hl1, Hc1.
      destruct (get_cell (DarkOverlay.grid self) r c); reflexivity.
Qed.

(** A frame leaves a positive brightness between the floor and 255. *)
Lemma next_floor (l : bool) (k : float) :
  brightness k -> PrimFloat.ltb 0 k = true ->
  PrimFloat.leb 25 (cell_next l k) = true /\ PrimFloat.leb (cell_next l k) 255 = true.
Proof.
  intros [_ Hhi] Hpos. destruct l; [split; reflexivity|].
  apply decay_floor_range; assumption.
Qed.

Lemma after_floor (light : LightGlow.t) (size : Z) (r c : nat)
    (fs : list (Surface * (Z * Z))) (k : float) :
  PrimFloat.leb 25 k = true -> PrimFloat.leb k 255 = true ->
  PrimFloat.leb 25 (cell_after light size r c fs k) = true
  /\ PrimFloat.leb (cell_after light size r c fs k) 255 = true.
Proof.
  revert k. induction fs as [|f fs IH]; intros k Hlo Hhi; [split; assumption|].
  rewrite cell_after_cons.
  destruct (floor_positive k Hlo) as [Hpos H0].
  destruct (next_floor (lit light size (snd f) r c) k (conj H0 Hhi) Hpos) as [H1 H2].
  apply IH; assumption.
Qed.

(** Every grid the engine can be in is in range: a fresh overlay is, and
    [draw] keeps it so.  Each of its cells is still at 0 or between the
    floor and 255. *)
Lemma reachable_in_range (start self : DarkOverlay.t) (fs : list (Surface * (Z * Z))) :
  DarkOverlay_init = Some start -> frames start fs = Some self ->
  in_range (DarkOverlay.grid self)
  /\ forall row col k, get_cell (DarkOverlay.grid self) row col = Some k ->
       k = PrimFloat.zero
       \/ (PrimFloat.leb 25 k = true /\ PrimFloat.leb k 255 = true).
Proof.
  intros Hinit Hrun. pose proof (init_in_range start Hinit) as H0.
  destruct (frames_in_range fs start H0) as (self' & Hrun' & Hg & _ & _ & Hget).
  rewrite Hrun in Hrun'. injection Hrun' as <-. split; [exact Hg|].
  intros row col k Hk. rewrite Hget in Hk.
  destruct (get_cell (DarkOverlay.grid start) row col) as [k0|] eqn:Hk0; [|discriminate].
  injection Hk as <-.
  assert (Hz : k0 = PrimFloat.zero).
  { pose proof DarkOverlay_init_some as H. rewrite Hinit in H. destruct H as (_ & Hgrid & _).
    destruct (get_cell_row _ _ _ _ Hk0) as (r & Hr & Hc). rewrite Hgrid in Hr.
    apply list_elem_of_lookup_2, list_elem_of_In in Hr.
    apply in_map_iff in Hr. destruct Hr as (i & <- & _).
    apply list_elem_of_lookup_2, list_elem_of_In in Hc.
    apply in_map_iff in Hc. destruct Hc as (j & <- & _). reflexivity. }
  rewrite Hz. clear.
  induction fs as [|f fs IH] using rev_ind; [left; reflexivity|].
  rewrite cell_after_snoc.
  destruct (lit _ _ _ row col); [right; split; reflexivity|].
  cbn [cell_next]. destruct IH as [->|[Hlo Hhi]].
  - left. reflexivity.
  - right. destruct (decay_fog _ Hlo Hhi) as (H1 & H2 & _). split; assumption.
Qed.

(** ** The fog engine's properties *)

(** C1, as the code has it: during an update, a cell whose centre is at a
    distance strictly below the light's radius has the brightness 55 after
    the call, whatever it held and whatever its decay in the same call
    would have been; the offset [(11 - glow) * 2] is not taken from the
    brightness.  It is taken from the grey the loop paints the cell's
    square with, [clamp (55 - (11 - glow) * 2) 0 255]; the glow mask is
    then blended over that grey with the maximum where it covers the
    pixel. *)
Theorem reveal_dominance (self : DarkOverlay.t) (scene : Surface) (pos : Z * Z)
    (row col : nat) (k : float) (x y : Z) :
  in_range (DarkOverlay.grid self) ->
  get_cell (DarkOverlay.grid self) row col = Some k ->
  py_lt (distance (Z.of_nat col * DarkOverlay.cell_size self + DarkOverlay.cell_size self / 2,
                   Z.of_nat row * DarkOverlay.cell_size self + DarkOverlay.cell_size self / 2)
                  pos)
        (float_of_int (LightGlow.radius (DarkOverlay.light self))) = true ->
  inside (DarkOverlay.surf self) x y = true ->
  in_rect (cell_rect (DarkOverlay.cell_size self) row col) x y = true ->
  exists self' screen' dark,
    draw self scene pos = Some (self', screen')
    /\ draw_cells self pos = Some (DarkOverlay.grid self', dark)
    /\ get_cell (DarkOverlay.grid self') row col = Some 55%float
    /\ pixel dark x y
       = grey (clamp (55 - (11 - LightGlow.glow (DarkOverlay.light self)) * 2) 0 255)
    /\ pixel (DarkOverlay.surf self') x y
       = let mask := LightGlow.surf (DarkOverlay.light self) in
         let corner := topleft (get_rect_at mask pos) in
         if inside mask (x - fst corner) (y - snd corner)
         then blend BLEND_RGBA_MAX (pixel mask (x - fst corner) (y - snd corner))
                (grey (clamp (55 - (11 - LightGlow.glow (DarkOverlay.light self)) * 2)
                         0 255))
         else grey (clamp (55 - (11 - LightGlow.glow (DarkOverlay.light self)) * 2) 0 255).
Proof.
  intros Hg Hk Hlit Hin Hrect.
  destruct (draw_in_range self scene pos Hg)
    as (self' & screen' & dark & Hd & Hcells & _ & _ & _ & Hget & Hsurf & _).
  destruct (draw_cells_in_range self pos Hg) as (g2 & d2 & Hrun & _ & _ & Hw & Hh & Hpix).
  rewrite Hcells in Hrun. injection Hrun as <- <-.
  assert (Hdark : pixel dark x y
                  = grey (clamp (55 - (11 - LightGlow.glow (DarkOverlay.light self)) * 2)
                            0 255)).
  { rewrite (Hpix row col k x y Hk Hin Hrect). unfold lit. rewrite Hlit. reflexivity. }
  exists self', screen', dark. split; [exact Hd|]. split; [exact Hcells|].
  split; [|split; [exact Hdark|]].
  - rewrite Hget, Hk. unfold lit. rewrite Hlit. reflexivity.
  - rewrite Hsurf. cbn [blit pixel]. cbv zeta.
    assert (Hin' : inside dark x y = true).
    { unfold inside in Hin |- *. rewrite Hw, Hh. exact Hin. }
    rewrite Hin', Hdark. cbn [andb]. reflexivity.
Qed.

(** C2: once the brightness of a cell is greater than 0, it is at least 25
    (and at most 255) after every later update, however many follow and
    whether or not the light reaches the cell in any of them. *)
Theorem brightness_floor (self : DarkOverlay.t) (row col : nat) (k : float)
    (f : Surface * (Z * Z)) (fs : list (Surface * (Z * Z))) :
  in_range (DarkOverlay.grid self) ->
  get_cell (DarkOverlay.grid self) row col = Some k ->
  PrimFloat.ltb 0 k = true ->
  exists self' k',
    frames self (f :: fs) = Some self'
    /\ get_cell (DarkOverlay.grid self') row col = Some k'
    /\ PrimFloat.leb 25 k' = true
    /\ PrimFloat.leb k' 255 = true.
Proof.
  intros Hg Hk Hpos.
  destruct (frames_in_range (f :: fs) self Hg) as (self' & Hrun & _ & _ & _ & Hget).
  exists self', (cell_after (DarkOverlay.light self) (DarkOverlay.cell_size self)
                   row col (f :: fs) k).
  split; [exact Hrun|]. split; [rewrite Hget, Hk; reflexivity|].
  rewrite cell_after_cons.
  pose proof (Hg _ _ _ Hk) as Hlev.
  destruct (next_floor (lit (DarkOverlay.light self) (DarkOverlay.cell_size self)
                          (snd f) row col) k Hlev Hpos) as [H1 H2].
  apply after_floor; [exact H1 | exact H2].
Qed.

(** C3: for a cell brighter than 25 that the light does not reach, each
    further update leaves a brightness that is not greater than the one
    before (and smaller while above 25), never below 25; after 2301 updates
    the brightness is exactly 25 and every later update leaves it at 25. *)
Theorem decay_monotone (self : DarkOverlay.t) (row col : nat) (k : float)
    (fs : list (Surface * (Z * Z))) (f : Surface * (Z * Z)) :
  in_range (DarkOverlay.grid self) ->
  get_cell (DarkOverlay.grid self) row col = Some k ->
  PrimFloat.ltb 25 k = true ->
  unlit (DarkOverlay.light self) (DarkOverlay.cell_size self) row col (fs ++ [f]) ->
  exists before after k1 k2,
    frames self fs = Some before
    /\ frames self (fs ++ [f]) = Some after
    /\ get_cell (DarkOverlay.grid before) row col = Some k1
    /\ get_cell (DarkOverlay.grid after) row col = Some k2
    /\ PrimFloat.leb k2 k1 = true
    /\ PrimFloat.leb 25 k2 = true
    /\ (PrimFloat.ltb 25 k1 = true -> PrimFloat.ltb k2 k1 = true)
    /\ ((2301 <= length fs)%nat -> k1 = 25%float /\ k2 = 25%float).
Proof.
  intros Hg Hk Hab Hdark.
  pose proof (Hg _ _ _ Hk) as Hlev.
  assert (Hdark1 : unlit (DarkOverlay.light self) (DarkOverlay.cell_size self) row col fs).
  { unfold unlit in Hdark |- *. apply Forall_app in Hdark. tauto. }
  destruct (frames_in_range fs self Hg) as (d1 & Hrun1 & _ & _ & _ & Hget1).
  destruct (frames_in_range (fs ++ [f]) self Hg) as (d2 & Hrun2 & _ & _ & _ & Hget2).
  specialize (Hget1 row col). specialize (Hget2 row col).
  rewrite Hk in Hget1, Hget2. cbn [fmap option_fmap option_map] in Hget1, Hget2.
  rewrite cell_after_unlit in Hget1 by exact Hdark1.
  rewrite cell_after_unlit in Hget2 by exact Hdark.
  rewrite length_app in Hget2. cbn [length] in Hget2.
  replace (length fs + 1)%nat with (S (length fs)) in Hget2 by lia.
  cbn [Nat.iter] in Hget2.
  assert (Hlo : PrimFloat.leb 25 k = true) by (apply above_floor; exact Hab).
  destruct (iter_decay_fog (length fs) k Hlo (proj2 Hlev)) as (Hlo1 & Hhi1 & _).
  set (k1 := Nat.iter (length fs) decay k) in Hget1, Hget2, Hlo1, Hhi1 |- *.
  destruct (decay_fog k1 Hlo1 Hhi1) as (Dlo & _ & Dle & Dlt & _).
  exists d1, d2, k1, (decay k1).
  split; [exact Hrun1|]. split; [exact Hrun2|]. split; [exact Hget1|]. split; [exact Hget2|].
  split; [exact Dle|]. split; [exact Dlo|]. split; [exact Dlt|].
  intros Hn.
  assert (H1 : k1 = 25%float) by (apply decay_settles; [exact Hlo | apply Hlev | exact Hn]).
  split; [exact H1|]. rewrite H1. apply decay_at_floor.
Qed.

Lemma check_slow :
  along (fun k => PrimFloat.ltb 25 k) 2300 255%float
  && PrimFloat.ltb 205 (Nat.iter 500 decay 255%float)
  && PrimFloat.ltb (Nat.iter 500 decay 255%float) 206 = true.
Proof. vm_compute. reflexivity. Qed.

(** C4, as the code has it: a cell of brightness 255 that the light never
    reaches loses 0.1 in each update: after 500 updates its brightness is
    still between 205 and 206; it is above 25 after each of the first 2300
    updates, exactly 25 after 2301 updates, and 25 after every later one. *)
Theorem decay_from_full (self : DarkOverlay.t) (row col : nat)
    (fs : list (Surface * (Z * Z))) :
  in_range (DarkOverlay.grid self) ->
  get_cell (DarkOverlay.grid self) row col = Some 255%float ->
  unlit (DarkOverlay.light self) (DarkOverlay.cell_size self) row col fs ->
  exists self' k',
    frames self fs = Some self'
    /\ get_cell (DarkOverlay.grid self') row col = Some k'
    /\ (length fs = 500%nat ->
        PrimFloat.ltb 205 k' = true /\ PrimFloat.ltb k' 206 = true)
    /\ ((length fs <= 2300)%nat -> PrimFloat.ltb 25 k' = true)
    /\ ((2301 <= length fs)%nat -> k' = 25%float).
Proof.
  intros Hg Hk Hdark.
  destruct (frames_in_range fs self Hg) as (d & Hrun & _ & _ & _ & Hget).
  specialize (Hget row col).
  rewrite Hk in Hget. cbn [fmap option_fmap option_map] in Hget.
  rewrite cell_after_unlit in Hget by exact Hdark.
  pose proof check_slow as Hc.
  apply andb_true_iff in Hc. destruct Hc as [Hc H206].
  apply andb_true_iff in Hc. destruct Hc as [Hslow H205].
  exists d, (Nat.iter (length fs) decay 255%float).
  split; [exact Hrun|]. split; [exact Hget|]. split; [|split].
  - intros ->. split; assumption.
  - intros Hn. apply (along_iter _ _ _ Hslow). exact Hn.
  - intros Hn. apply decay_settles; [reflexivity | reflexivity | exact Hn].
Qed.

Lemma mult_full (d : Z) : 0 <= d <= 255 -> blend_channel BLEND_RGBA_MULT 255 d = d.
Proof.
  intros Hd. unfold blend_channel.
  destruct (Z.eqb_spec d 0) as [->|Hne]; [reflexivity|]. simpl.
  rewrite Z.shiftr_div_pow2 by lia. change (2 ^ 8) with 256.
  symmetry. apply (Z.div_unique_pos _ _ _ (255 - d)); lia.
Qed.

Lemma mult_black (s : Color) : blend BLEND_RGBA_MULT s (grey 0) = grey 0.
Proof. reflexivity. Qed.

(** C9: [draw] first blends the glow mask into the darkness layer with the
    per-channel maximum and then multiplies that layer into the scene per
    channel; multiplying a channel by full brightness 255 leaves it as it
    is; and an all-black scene comes out of the composite unchanged, with
    any glow mask and any fog grid (one of 255 everywhere included). *)
Theorem composite_black (self : DarkOverlay.t) (scene : Surface) (pos : Z * Z) :
  in_range (DarkOverlay.grid self) ->
  (forall x y, pixel scene x y = grey 0) ->
  exists self' screen' grid' dark,
    draw self scene pos = Some (self', screen')
    /\ draw_cells self pos = Some (grid', dark)
    /\ DarkOverlay.surf self'
       = blit dark (LightGlow.surf (DarkOverlay.light self))
           (topleft (get_rect_at (LightGlow.surf (DarkOverlay.light self)) pos))
           BLEND_RGBA_MAX
    /\ screen' = blit scene (DarkOverlay.surf self') (0, 0) BLEND_RGBA_MULT
    /\ get_size screen' = get_size scene
    /\ (forall x y, pixel screen' x y = pixel scene x y)
    /\ (forall s d, blend_channel BLEND_RGBA_MAX s d = Z.max s d)
    /\ (forall d, 0 <= d <= 255 -> blend_channel BLEND_RGBA_MULT 255 d = d).
Proof.
  intros Hg Hblack.
  destruct (draw_in_range self scene pos Hg)
    as (self' & screen' & dark & Hrun & Hcells & _ & _ & _ & _ & Hsurf & Hscr).
  exists self', screen', (DarkOverlay.grid self'), dark.
  split; [exact Hrun|]. split; [exact Hcells|]. split; [exact Hsurf|].
  split; [exact Hscr|]. split; [rewrite Hscr; reflexivity|].
  split; [|split].
  - intros x y. rewrite Hscr. cbn [blit pixel]. rewrite !Hblack.
    rewrite mult_black. destruct (_ && _); reflexivity.
  - intros s d. unfold blend_channel. destruct (Z.ltb_spec d s); lia.
  - apply mult_full.
Qed.

(** C10: for a cell inside the light radius during an update, the
    brightness stored in the grid is exactly 55, whatever the glow counter
    is: the grid after the update is the same for every value of the
    counter (the offset [(11 - glow) * 2] only enters the grey painted in
    that frame), and the next update starts from the stored 55. *)
Theorem reveal_stored (self : DarkOverlay.t) (scene : Surface) (pos : Z * Z)
    (row col : nat) (k : float) :
  in_range (DarkOverlay.grid self) ->
  get_cell (DarkOverlay.grid self) row col = Some k ->
  lit (DarkOverlay.light self) (DarkOverlay.cell_size self) pos row col = true ->
  exists self' screen',
    draw self scene pos = Some (self', screen')
    /\ get_cell (DarkOverlay.grid self') row col = Some 55%float
    /\ (forall glow, exists other screen'',
          draw (with_light self (with_glow (DarkOverlay.light self) glow)) scene pos
          = Some (other, screen'')
          /\ forall r c, get_cell (DarkOverlay.grid other) r c
                         = get_cell (DarkOverlay.grid self') r c)
    /\ (forall scene2 pos2, exists next screen2,
          draw self' scene2 pos2 = Some (next, screen2)
          /\ get_cell (DarkOverlay.grid next) row col
             = Some (cell_next (lit (DarkOverlay.light self) (DarkOverlay.cell_size self)
                                    pos2 row col) 55%float)).
Proof.
  intros Hg Hk Hlit.
  destruct (draw_in_range self scene pos Hg)
    as (self' & screen' & dark & Hrun & _ & Hg' & Hl & Hc & Hget & _).
  exists self', screen'. split; [exact Hrun|].
  assert (H55 : get_cell (DarkOverlay.grid self') row col = Some 55%float).
  { rewrite Hget, Hk, Hlit. reflexivity. }
  split; [exact H55|]. split.
  - intros glow.
    destruct (draw_in_range (with_light self (with_glow (DarkOverlay.light self) glow))
                scene pos Hg)
      as (other & scr & dark2 & Hrun2 & _ & _ & _ & _ & Hget2 & _).
    exists other, scr. split; [exact Hrun2|].
    intros r c. rewrite Hget2, Hget. reflexivity.
  - intros scene2 pos2.
    destruct (draw_in_range self' scene2 pos2 Hg')
      as (next & scr & dark2 & Hrun2 & _ & _ & _ & _ & Hget2 & _).
    exists next, scr. split; [exact Hrun2|].
    rewrite Hget2, H55, Hl, Hc. reflexivity.
Qed.

(** ** What [draw] does on any grid

    The lemmas above are about grids in range, on which [draw] never
    raises.  The ones below hold for every grid and every call of [draw]
    that returns. *)

(** A property the body of a loop keeps holds when the loop ends. *)
Lemma for_each_inv {S : Type} (P : S -> Prop) (body : nat -> S -> option S)
    (l : list nat) :
  (forall i s s', P s -> body i s = Some s' -> P s') ->
  forall s s', P s -> for_each l body s = Some s' -> P s'.
Proof.
  intros Hbody. induction l as [|i l IH]; intros s s' Hs Hrun.
  - cbn [for_each] in Hrun. injection Hrun as <-. exact Hs.
  - cbn [for_each] in Hrun. destruct (body i s) as [s1|] eqn:E; [|discriminate].
    cbn [mbind option_bind] in Hrun. eapply IH; [|exact Hrun].
    eapply Hbody; eassumption.
Qed.

(** A loop raises when its body raises at some index [i] on every state
    with [P], and the turns before keep [P]. *)
Lemma for_each_raises {S : Type} (P : S -> Prop) (body : nat -> S -> option S)
    (i : nat) (l : list nat) :
  i ∈ l ->
  (forall j s s', j <> i -> P s -> body j s = Some s' -> P s') ->
  (forall s, P s -> body i s = None) ->
  forall s, P s -> for_each l body s = None.
Proof.
  intros Hi Hkeep Hraise. induction l as [|j l IH]; intros s Hs.
  - inversion Hi.
  - cbn [for_each]. destruct (decide (j = i)) as [->|Hne].
    + rewrite (Hraise s Hs). reflexivity.
    + destruct (body j s) as [s1|] eqn:E; [|reflexivity].
      cbn [mbind option_bind]. apply IH.
      * apply elem_of_cons in Hi. destruct Hi as [->|Hi]; [congruence | exact Hi].
      * eapply Hkeep; eassumption.
Qed.

(** When the loop body returns, the cell held a number [k] whose decayed
    value [int] accepts, and the body has stored [cell_next] and painted
    the cell's square with [cell_grey]. *)
Lemma draw_cell_some (light : LightGlow.t) (size : Z) (pos : Z * Z) (r c : nat)
    (g g' : list (list float)) (s s' : Surface) :
  draw_cell light size pos r c (g, s) = Some (g', s') ->
  exists k v,
    get_cell g r c = Some k
    /\ int (decay k) = Some v
    /\ g' = set_cell g r c (cell_next (lit light size pos r c) k)
    /\ s' = draw_rect s (grey (cell_grey (LightGlow.glow light) (lit light size pos r c) k))
                      (cell_rect size r c).
Proof.
  unfold draw_cell. intros H.
  destruct (get_cell g r c) as [k|] eqn:Hget; [|discriminate].
  cbn [mbind option_bind] in H.
  assert (Hmid : get_cell
            (if py_lt PrimFloat.zero k
             then set_cell g r c (clamp (PrimFloat.sub k decay_step) 25%float 255%float)
             else g) r c = Some (decay k)).
  { unfold decay. destruct (py_lt PrimFloat.zero k).
    - rewrite get_set_cell. rewrite decide_True by tauto. rewrite Hget. reflexivity.
    - exact Hget. }
  rewrite Hmid in H. cbn [mbind option_bind] in H.
  destruct (int (decay k)) as [v|] eqn:Hv; [|discriminate].
  cbn [mbind option_bind] in H.
  exists k, v. split; [reflexivity|]. split; [exact Hv|].
  unfold lit, cell_grey, cell_next, grey, cell_rect.
  destruct (py_lt (distance _ pos) _).
  - injection H as <- <-. split; [|reflexivity]. unfold decay.
    destruct (py_lt PrimFloat.zero k); [apply set_cell_twice | reflexivity].
  - injection H as <- <-. rewrite Hv. split; [|reflexivity]. unfold decay.
    destruct (py_lt PrimFloat.zero k); [reflexivity|].
    symmetry. apply set_cell_same. exact Hget.
Qed.

Lemma set_cell_shape (g : list (list float)) (r c : nat) (v : float) :
  shape (set_cell g r c v) = shape g.
Proof.
  unfold shape, set_cell. destruct (g !! r) as [row|] eqn:Hr; [|reflexivity].
  rewrite list_fmap_insert. rewrite length_insert.
  apply list_insert_id. rewrite list_lookup_fmap, Hr. reflexivity.
Qed.

(** Two grids of the same shape with the same cells are the same grid. *)
Lemma grid_ext (g g' : list (list float)) :
  shape g' = shape g ->
  (forall r c, get_cell g' r c = get_cell g r c) ->
  g' = g.
Proof.
  intros Hs Hc. apply list_eq. intros r.
  assert (Hl : length <$> (g' !! r) = length <$> (g !! r)).
  { unfold shape in Hs. rewrite <- !list_lookup_fmap.
    change (map length g') with (length <$> g') in Hs.
    change (map length g) with (length <$> g) in Hs. rewrite Hs. reflexivity. }
  destruct (g' !! r) as [row'|] eqn:E', (g !! r) as [row|] eqn:E; try discriminate;
    [|reflexivity].
  f_equal. apply list_eq. intros c.
  specialize (Hc r c). unfold get_cell in Hc. rewrite E', E in Hc. exact Hc.
Qed.

(** What the loops keep, whatever the grid holds: its shape and the size of
    the overlay's surface. *)
Lemma draw_cells_frame (self : DarkOverlay.t) (pos : Z * Z)
    (g' : list (list float)) (s' : Surface) :
  draw_cells self pos = Some (g', s') ->
  shape g' = shape (DarkOverlay.grid self)
  /\ get_size s' = get_size (DarkOverlay.surf self).
Proof.
  unfold draw_cells. intros H.
  set (P := fun st : list (list float) * Surface =>
              shape (fst st) = shape (DarkOverlay.grid self)
              /\ get_size (snd st) = get_size (DarkOverlay.surf self)).
  apply (for_each_inv P _ _) with (s' := (g', s')) in H; [exact H| |split; reflexivity].
  intros r st st' Hst Hrow. unfold draw_row in Hrow.
  destruct (fst st !! r) as [row|]; [|discriminate]. cbn [mbind option_bind] in Hrow.
  apply (for_each_inv P _ _) with (s' := st') in Hrow; [exact Hrow| |exact Hst].
  intros c [g1 s1] [g2 s2] [Hs1 Hz1] Hcell.
  apply draw_cell_some in Hcell. destruct Hcell as (k & v & _ & _ & -> & ->).
  split; cbn [fst snd] in *.
  - rewrite set_cell_shape. exact Hs1.
  - rewrite <- Hz1. unfold get_size.
    destruct (draw_rect_size s1 (grey (cell_grey (LightGlow.glow (DarkOverlay.light self))
                (lit (DarkOverlay.light self) (DarkOverlay.cell_size self) pos r c) k))
                (cell_rect (DarkOverlay.cell_size self) r c)) as [-> ->].
    reflexivity.
Qed.

(** X1: a call of [draw] that returns changes neither the shape of the
    grid (the number of rows and the length of each) nor the light nor
    the cell size, and the overlay's surface and the screen keep their
    sizes. *)
Theorem draw_keeps_shape (self self' : DarkOverlay.t) (scene screen' : Surface)
    (pos : Z * Z) :
  draw self scene pos = Some (self', screen') ->
  shape (DarkOverlay.grid self') = shape (DarkOverlay.grid self)
  /\ DarkOverlay.light self' = DarkOverlay.light self
  /\ DarkOverlay.cell_size self' = DarkOverlay.cell_size self
  /\ get_size (DarkOverlay.surf self') = get_size (DarkOverlay.surf self)
  /\ get_size screen' = get_size scene.
Proof.
  unfold draw. intros H.
  destruct (draw_cells self pos) as [[g' dark]|] eqn:Hcells; [|discriminate].
  cbn [mbind option_bind] in H. injection H as <- <-.
  destruct (draw_cells_frame self pos g' dark Hcells) as [Hs Hz].
  cbn [DarkOverlay.grid DarkOverlay.light DarkOverlay.cell_size DarkOverlay.surf].
  split; [exact Hs|]. split; [reflexivity|]. split; [reflexivity|].
  split; [|reflexivity]. rewrite <- Hz. reflexivity.
Qed.

(** The inner loop, when it returns: the cells of its columns hold
    [cell_next] of what they held, every other cell is as it was. *)
Lemma draw_cols_cells (light : LightGlow.t) (size : Z) (pos : Z * Z) (r : nat)
    (cols : list nat) :
  forall (g g' : list (list float)) (s s' : Surface),
  NoDup cols ->
  for_each cols (draw_cell light size pos r) (g, s) = Some (g', s') ->
  forall r' c', get_cell g' r' c'
    = if decide (r' = r /\ c' ∈ cols)
      then cell_next (lit light size pos r c') <$> get_cell g r' c'
      else get_cell g r' c'.
Proof.
  induction cols as [|c0 cols IH]; intros g g' s s' Hnd Hrun r' c'.
  - cbn [for_each] in Hrun. injection Hrun as <- <-.
    case_decide as Hd; [|reflexivity]. destruct Hd as [_ Hd]. inversion Hd.
  - apply NoDup_cons in Hnd. destruct Hnd as [Hc0 Hnd].
    cbn [for_each] in Hrun.
    destruct (draw_cell light size pos r c0 (g, s)) as [[g1 s1]|] eqn:Hstep; [|discriminate].
    cbn [mbind option_bind] in Hrun.
    apply draw_cell_some in Hstep. destruct Hstep as (k0 & v0 & Hk0 & _ & Hg1 & _).
    assert (Hget1 : forall r' c', get_cell g1 r' c'
              = if decide (r' = r /\ c' = c0)
                then Some (cell_next (lit light size pos r c0) k0)
                else get_cell g r' c').
    { intros r2 c2. rewrite Hg1, get_set_cell, Hk0. reflexivity. }
    rewrite (IH g1 g' s1 s' Hnd Hrun r' c'). rewrite !Hget1.
    destruct (decide (r' = r)) as [->|Hr].
    + destruct (decide (c' = c0)) as [->|Hc].
      * rewrite (decide_False (P := r = r /\ c0 ∈ cols)) by tauto.
        rewrite decide_True by tauto.
        rewrite (decide_True (P := r = r /\ c0 ∈ c0 :: cols)) by (split; [reflexivity | left]).
        rewrite Hk0. reflexivity.
      * rewrite (decide_False (P := r = r /\ c' = c0)) by tauto.
        destruct (decide (c' ∈ cols)) as [Hc'|Hc'].
        -- rewrite decide_True by tauto.
           rewrite (decide_True (P := r = r /\ c' ∈ c0 :: cols))
             by (split; [reflexivity | right; exact Hc']).
           reflexivity.
        -- rewrite decide_False by tauto.
           rewrite (decide_False (P := r = r /\ c' ∈ c0 :: cols)); [reflexivity|].
           intros [_ Hx]. apply elem_of_cons in Hx. tauto.
    + rewrite !decide_False by tauto. reflexivity.
Qed.

(** The outer loop, when it returns. *)
Lemma draw_rows_cells (light : LightGlow.t) (size : Z) (pos : Z * Z) (rows : list nat) :
  forall (g g' : list (list float)) (s s' : Surface),
  NoDup rows ->
  for_each rows (draw_row light size pos) (g, s) = Some (g', s') ->
  forall r' c', get_cell g' r' c'
    = if decide (r' ∈ rows)
      then cell_next (lit light size pos r' c') <$> get_cell g r' c'
      else get_cell g r' c'.
Proof.
  induction rows as [|r0 rows IH]; intros g g' s s' Hnd Hrun r' c'.
  - cbn [for_each] in Hrun. injection Hrun as <- <-.
    case_decide as Hd; [inversion Hd | reflexivity].
  - apply NoDup_cons in Hnd. destruct Hnd as [Hr0 Hnd].
    cbn [for_each] in Hrun.
    destruct (draw_row light size pos r0 (g, s)) as [[g1 s1]|] eqn:Hrow; [|discriminate].
    cbn [mbind option_bind] in Hrun.
    unfold draw_row in Hrow. change (fst (g, s)) with g in Hrow.
    destruct (g !! r0) as [row0|] eqn:Hrow0; [|discriminate].
    cbn [mbind option_bind] in Hrow.
    pose proof (draw_cols_cells light size pos r0 (seq 0 (length row0)) g g1 s s1
                  (NoDup_seq _ _) Hrow) as Hget1.
    assert (Hget1' : forall r' c', get_cell g1 r' c'
              = if decide (r' = r0)
                then cell_next (lit light size pos r0 c') <$> get_cell g r' c'
                else get_cell g r' c').
    { intros r2 c2. rewrite Hget1. destruct (decide (r2 = r0)) as [->|Hne].
      - case_decide as Hd; [reflexivity|].
        assert (Hnone : get_cell g r0 c2 = None).
        { unfold get_cell. rewrite Hrow0. simpl. apply lookup_ge_None.
          destruct (le_lt_dec (length row0) c2) as [Hle|Hlt]; [exact Hle|].
          exfalso. apply Hd. split; [reflexivity|]. apply elem_of_seq. lia. }
        rewrite Hnone. reflexivity.
      - rewrite decide_False by tauto. reflexivity. }
    rewrite (IH g1 g' s1 s' Hnd Hrun r' c'). rewrite !Hget1'.
    destruct (decide (r' = r0)) as [->|Hne].
    + rewrite (decide_False (P := r0 ∈ rows)) by exact Hr0.
      rewrite (decide_True (P := r0 ∈ r0 :: rows)) by left. reflexivity.
    + destruct (decide (r' ∈ rows)) as [Hr'|Hr'].
      * rewrite (decide_True (P := r' ∈ r0 :: rows)) by (right; exact Hr').
        reflexivity.
      * rewrite (decide_False (P := r' ∈ r0 :: rows)); [reflexivity|].
        intros Hx. apply elem_of_cons in Hx. tauto.
Qed.

(** The two loops, when they return: every cell holds [cell_next] of what
    it held. *)
Lemma draw_cells_cells (self : DarkOverlay.t) (pos : Z * Z)
    (g' : list (list float)) (s' : Surface) :
  draw_cells self pos = Some (g', s') ->
  forall r c, get_cell g' r c
    = cell_next (lit (DarkOverlay.light self) (DarkOverlay.cell_size self) pos r c)
        <$> get_cell (DarkOverlay.grid self) r c.
Proof.
  unfold draw_cells. intros Hrun r c.
  rewrite (draw_rows_cells _ _ _ _ _ _ _ _ (NoDup_seq _ _) Hrun r c).
  case_decide as Hd; [reflexivity|].
  assert (Hnone : get_cell (DarkOverlay.grid self) r c = None).
  { unfold get_cell.
    destruct (DarkOverlay.grid self !! r) as [row|] eqn:Hrow; [|reflexivity].
    exfalso. apply Hd. apply elem_of_seq. apply lookup_lt_Some in Hrow. lia. }
  rewrite Hnone. reflexivity.
Qed.

(** A positive number of any size, infinity included, decays to something
    between the floor and 255. *)
Lemma decay_positive (k : float) :
  PrimFloat.ltb 0 k = true ->
  PrimFloat.leb 25 (decay k) = true /\ PrimFloat.leb (decay k) 255 = true.
Proof.
  intros Hpos.
  assert (Hcases : k = infinity \/ exists m e, Prim2SF k = S754_finite false m e).
  { pose proof Hpos as H0. rewrite FloatAxioms.ltb_spec in H0.
    change (Prim2SF 0) with (S754_zero false) in H0.
    pose proof (FloatAxioms.SF2Prim_Prim2SF k) as Hk.
    destruct (Prim2SF k) as [s|s| |s m e]; unfold SFltb in H0; cbn [SFcompare] in H0.
    - discriminate H0.
    - destruct s; [discriminate H0|]. left. rewrite <- Hk. reflexivity.
    - discriminate H0.
    - destruct s; [discriminate H0|]. right. exists m, e. reflexivity. }
  destruct Hcases as [->|(m & e & Hk)]; [split; reflexivity|].
  pose proof (sub_step_not_nan k m e Hk) as Hv.
  unfold decay. change (py_lt PrimFloat.zero k) with (PrimFloat.ltb 0 k). rewrite Hpos.
  unfold clamp, py_lt, float_lt.
  destruct (PrimFloat.ltb (PrimFloat.sub k decay_step) 25) eqn:E1; [split; reflexivity|].
  destruct (PrimFloat.ltb 255 (PrimFloat.sub k decay_step)) eqn:E2; [split; reflexivity|].
  split.
  - apply ltb_false_leb; [exact Hv | discriminate | exact E1].
  - apply ltb_false_leb; [discriminate | exact Hv | exact E2].
Qed.

(** X2: whatever a cell holds, if it is greater than 0 (above 255 or
    infinite included) and the call of [draw] returns, the cell holds a
    brightness between 25 and 255 afterwards. *)
Theorem positive_cell_healed (self self' : DarkOverlay.t) (scene screen' : Surface)
    (pos : Z * Z) (row col : nat) (k : float) :
  draw self scene pos = Some (self', screen') ->
  get_cell (DarkOverlay.grid self) row col = Some k ->
  PrimFloat.ltb 0 k = true ->
  exists k',
    get_cell (DarkOverlay.grid self') row col = Some k'
    /\ PrimFloat.leb 25 k' = true
    /\ PrimFloat.leb k' 255 = true.
Proof.
  unfold draw. intros H Hk Hpos.
  destruct (draw_cells self pos) as [[g' dark]|] eqn:Hcells; [|discriminate].
  cbn [mbind option_bind] in H. injection H as <- <-.
  cbn [DarkOverlay.grid].
  rewrite (draw_cells_cells self pos g' dark Hcells row col), Hk.
  cbn [fmap option_fmap option_map]. eexists. split; [reflexivity|].
  destruct (lit _ _ _ row col); [split; reflexivity|].
  cbn [cell_next]. apply decay_positive. exact Hpos.
Qed.

(** X3: a cell that holds NaN or minus infinity makes [draw] raise: such a
    cell is not greater than 0, so it is not clamped, and [int] refuses
    it. *)
Theorem draw_raises (self : DarkOverlay.t) (scene : Surface) (pos : Z * Z)
    (row col : nat) (k : float) :
  get_cell (DarkOverlay.grid self) row col = Some k ->
  k = nan \/ k = neg_infinity ->
  draw self scene pos = None.
Proof.
  intros Hk Hbad.
  assert (Hnot : PrimFloat.ltb 0 k = false /\ int k = None)
    by (destruct Hbad as [->| ->]; split; reflexivity).
  destruct Hnot as [Hpos Hint].
  assert (Hcell : forall r c g s g1 s1,
            draw_cell (DarkOverlay.light self) (DarkOverlay.cell_size self) pos r c (g, s)
            = Some (g1, s1) ->
            get_cell g row col = Some k ->
            (r <> row \/ c <> col) /\ get_cell g1 row col = Some k).
  { intros r c g s g1 s1 Hrun Hg.
    apply draw_cell_some in Hrun. destruct Hrun as (k0 & v0 & Hk0 & Hv0 & -> & _).
    destruct (decide (row = r /\ col = c)) as [[-> ->]|Hne].
    - exfalso. rewrite Hg in Hk0. injection Hk0 as <-.
      unfold decay in Hv0. change (py_lt PrimFloat.zero k) with (PrimFloat.ltb 0 k) in Hv0.
      rewrite Hpos in Hv0. congruence.
    - split; [destruct (decide (r = row)), (decide (c = col)); subst; tauto|].
      rewrite get_set_cell. rewrite decide_False by exact Hne. exact Hg. }
  set (P := fun st : list (list float) * Surface => get_cell (fst st) row col = Some k).
  assert (Hcols : forall r cols st st',
            P st ->
            for_each cols (draw_cell (DarkOverlay.light self) (DarkOverlay.cell_size self)
                             pos r) st = Some st' ->
            P st').
  { intros r cols st st' Hst Hrun.
    apply (for_each_inv P _ _) with (s' := st') in Hrun; [exact Hrun| |exact Hst].
    intros c [g1 s1] [g2 s2] H1 H2. exact (proj2 (Hcell _ _ _ _ _ _ H2 H1)). }
  destruct (get_cell_row _ _ _ _ Hk) as (row0 & Hrow0 & Hcol0).
  unfold draw, draw_cells.
  rewrite (for_each_raises P _ row); [reflexivity| | | |exact Hk].
  - apply elem_of_seq. apply lookup_lt_Some in Hrow0. lia.
  - intros j st st' _ Hst Hrun. unfold draw_row in Hrun.
    destruct (fst st !! j) as [rj|]; [|discriminate]. cbn [mbind option_bind] in Hrun.
    eapply Hcols; eassumption.
  - intros st Hst. unfold draw_row.
    destruct (get_cell_row _ _ _ _ Hst) as (r1 & Hr1 & Hc1). rewrite Hr1.
    cbn [mbind option_bind].
    apply (for_each_raises P _ col); [| | |exact Hst].
    + apply elem_of_seq. apply lookup_lt_Some in Hc1. lia.
    + intros c st1 st2 _ H1 H2. destruct st1 as [g1 s1], st2 as [g2 s2].
      exact (proj2 (Hcell _ _ _ _ _ _ H2 H1)).
    + intros [g1 s1] H1.
      destruct (draw_cell _ _ pos row col (g1, s1)) as [[g2 s2]|] eqn:E; [|reflexivity].
      destruct (Hcell _ _ _ _ _ _ E H1) as [[Hne|Hne] _]; congruence.
Qed.

(** ** Bytes in, bytes out *)

Lemma grey_byte (k : Z) : 0 <= k <= 255 -> byte_color (grey k).
Proof. intros H. repeat split; apply H. Qed.

Lemma cell_grey_byte (glow : Z) (l : bool) (k : float) :
  0 <= cell_grey glow l k <= 255.
Proof. unfold cell_grey. rewrite clamp_int by lia. lia. Qed.

Lemma blank_byte (w h : Z) : byte_surface (blank w h).
Proof. intros x y. apply grey_byte. lia. Qed.

Lemma max_byte (s d : Z) :
  0 <= s <= 255 -> 0 <= d <= 255 ->
  0 <= blend_channel BLEND_RGBA_MAX s d <= 255 /\ d <= blend_channel BLEND_RGBA_MAX s d.
Proof. intros Hs Hd. unfold blend_channel. destruct (Z.ltb_spec d s); lia. Qed.

Lemma mult_byte (s d : Z) :
  0 <= s <= 255 -> 0 <= d <= 255 ->
  0 <= blend_channel BLEND_RGBA_MULT s d <= d.
Proof.
  intros Hs Hd. unfold blend_channel.
  destruct ((d =? 0) || (s =? 0)); [lia|].
  rewrite Z.shiftr_div_pow2 by lia. change (2 ^ 8) with 256.
  split; [apply Z.div_pos; nia|].
  assert ((d * s + 255) / 256 < d + 1); [|lia].
  apply Z.div_lt_upper_bound; nia.
Qed.

Lemma blit_byte (dst src : Surface) (dest : Z * Z) (m : BlendMode) :
  byte_surface dst -> byte_surface src -> byte_surface (blit dst src dest m).
Proof.
  intros Hd Hs x y. cbn [blit pixel].
  destruct (inside dst x y && inside src (x - fst dest) (y - snd dest)); [|apply Hd].
  destruct (Hd x y) as (Hr & Hg & Hb).
  destruct (Hs (x - fst dest) (y - snd dest)) as (Hr' & Hg' & Hb').
  unfold byte_color, blend. cbn [red green blue].
  destruct m.
  - pose proof (max_byte _ _ Hr' Hr). pose proof (max_byte _ _ Hg' Hg).
    pose proof (max_byte _ _ Hb' Hb). tauto.
  - pose proof (mult_byte _ _ Hr' Hr). pose proof (mult_byte _ _ Hg' Hg).
    pose proof (mult_byte _ _ Hb' Hb). lia.
Qed.

(** The two loops paint greys between 0 and 255 only. *)
Lemma draw_cells_byte (self : DarkOverlay.t) (pos : Z * Z)
    (g' : list (list float)) (s' : Surface) :
  byte_surface (DarkOverlay.surf self) ->
  draw_cells self pos = Some (g', s') ->
  byte_surface s'.
Proof.
  unfold draw_cells. intros Hb H.
  set (P := fun st : list (list float) * Surface => byte_surface (snd st)).
  apply (for_each_inv P _ _) with (s' := (g', s')) in H; [exact H| |exact Hb].
  intros r st st' Hst Hrow. unfold draw_row in Hrow.
  destruct (fst st !! r) as [row|]; [|discriminate]. cbn [mbind option_bind] in Hrow.
  apply (for_each_inv P _ _) with (s' := st') in Hrow; [exact Hrow| |exact Hst].
  intros c [g1 s1] [g2 s2] H1 Hcell.
  apply draw_cell_some in Hcell. destruct Hcell as (k & v & _ & _ & _ & ->).
  intros x y. cbn [snd]. rewrite draw_rect_pixel.
  destruct (_ && _); [|apply H1]. apply grey_byte. apply cell_grey_byte.
Qed.

(** X4: the overlay only darkens.  On surfaces of bytes, a call of [draw]
    that returns leaves no channel of any pixel of the screen above what
    the scene had there; the overlay's surface and the screen hold bytes
    again. *)
Theorem overlay_only_darkens (self self' : DarkOverlay.t) (scene screen' : Surface)
    (pos : Z * Z) :
  byte_surface scene ->
  byte_surface (DarkOverlay.surf self) ->
  byte_surface (LightGlow.surf (DarkOverlay.light self)) ->
  draw self scene pos = Some (self', screen') ->
  byte_surface (DarkOverlay.surf self')
  /\ byte_surface screen'
  /\ forall x y, darker (pixel screen' x y) (pixel scene x y).
Proof.
  unfold draw. intros Hscene Hsurf Hlight H.
  destruct (draw_cells self pos) as [[g' dark]|] eqn:Hcells; [|discriminate].
  cbn [mbind option_bind] in H. injection H as <- <-.
  cbn [DarkOverlay.surf].
  pose proof (draw_cells_byte self pos g' dark Hsurf Hcells) as Hdark.
  pose proof (blit_byte dark _ (topleft (get_rect_at (LightGlow.surf (DarkOverlay.light self))
                                  pos)) BLEND_RGBA_MAX Hdark Hlight) as Hdark'.
  split; [exact Hdark'|]. split; [apply blit_byte; assumption|].
  intros x y. cbn [blit pixel] in *.
  match goal with
  | |- darker (if ?b then _ else _) _ => destruct b
  end; [|unfold darker; lia].
  destruct (Hscene x y) as (Hr & Hg & Hb).
  match goal with
  | |- darker (blend _ ?c _) _ =>
      assert (Hc : byte_color c) by apply Hdark'; destruct Hc as (Hr' & Hg' & Hb')
  end.
  unfold darker, blend. cbn [red green blue].
  split; [|split]; apply mult_byte; assumption.
Qed.

(** ** Dark cells, explored cells *)

(** A brightness that is not greater than 0 is a zero: it does not decay
    and [int] makes it 0. *)
Lemma dark_zero (k : float) :
  brightness k -> PrimFloat.ltb 0 k = false -> decay k = k /\ int k = Some 0.
Proof.
  intros [H0 H1] Hpos. split.
  - unfold decay. change (py_lt PrimFloat.zero k) with (PrimFloat.ltb 0 k).
    rewrite Hpos. reflexivity.
  - destruct (range_cases k H0 H1) as [[s Hk]|(m & e & Hk)].
    + unfold int. rewrite Hk. reflexivity.
    + exfalso. rewrite FloatAxioms.ltb_spec, Hk in Hpos. discriminate Hpos.
Qed.

(** [int] of a brightness between the floor and 255 is between 25 and 255. *)
Lemma int_floor_range (k : float) :
  PrimFloat.leb 25 k = true -> PrimFloat.leb k 255 = true ->
  exists v, int k = Some v /\ 25 <= v <= 255.
Proof.
  intros Hlo Hhi. destruct (float_rep k Hlo Hhi) as (m & e & Hk & He & Hm & Hu).
  unfold int. rewrite Hk. eexists. split; [reflexivity|].
  rewrite Z.shiftl_div_pow2 by lia.
  assert (Hcases : e = -48 \/ e = -47 \/ e = -46 \/ e = -45) by lia.
  destruct Hcases as [-> | [-> | [-> | ->]]]; cbn [Z.opp Z.add Z.pos_sub] in Hu |- *;
    pow_numerals;
    (split; [apply Z.div_le_lower_bound; lia
            | assert (forall a b, a < b + 1 -> a <= b) as Hle by lia; apply Hle;
              apply Z.div_lt_upper_bound; lia]).
Qed.

(** X5: a cell that is not greater than 0 and that the light does not reach
    is left as it is by every frame, however many follow; and a frame in
    which the light does not reach it paints its square black. *)
Theorem unexplored_stays_dark (self : DarkOverlay.t) (row col : nat) (k : float)
    (fs : list (Surface * (Z * Z))) :
  in_range (DarkOverlay.grid self) ->
  get_cell (DarkOverlay.grid self) row col = Some k ->
  PrimFloat.ltb 0 k = false ->
  unlit (DarkOverlay.light self) (DarkOverlay.cell_size self) row col fs ->
  exists self',
    frames self fs = Some self'
    /\ get_cell (DarkOverlay.grid self') row col = Some k
    /\ forall pos x y,
         lit (DarkOverlay.light self) (DarkOverlay.cell_size self) pos row col = false ->
         inside (DarkOverlay.surf self') x y = true ->
         in_rect (cell_rect (DarkOverlay.cell_size self) row col) x y = true ->
         exists grid' dark,
           draw_cells self' pos = Some (grid', dark) /\ pixel dark x y = grey 0.
Proof.
  intros Hg Hk Hpos Hdark.
  destruct (frames_in_range fs self Hg) as (self' & Hrun & Hg' & Hl & Hc & Hget).
  destruct (dark_zero k (Hg _ _ _ Hk) Hpos) as [Hfix Hint].
  assert (Hk' : get_cell (DarkOverlay.grid self') row col = Some k).
  { rewrite Hget, Hk. cbn [fmap option_fmap option_map]. f_equal.
    rewrite cell_after_unlit by exact Hdark.
    induction (length fs) as [|n IH]; [reflexivity|].
    rewrite Nat.iter_succ, IH. exact Hfix. }
  exists self'. split; [exact Hrun|]. split; [exact Hk'|].
  intros pos x y Hlit Hin Hrect.
  destruct (draw_cells_in_range self' pos Hg') as (g2 & dark & Hrun2 & _ & _ & _ & _ & Hpix).
  exists g2, dark. split; [exact Hrun2|].
  rewrite <- Hc in Hrect. rewrite (Hpix row col k x y Hk' Hin Hrect).
  rewrite Hl, Hc, Hlit. unfold cell_grey. rewrite Hfix, Hint. reflexivity.
Qed.

(** X6: a cell greater than 0 that the light does not reach is painted
    with the integer part of the brightness the frame stores for it, and
    that grey is between 25 and 255: an explored cell is never painted
    black again. *)
Theorem explored_stays_visible (self : DarkOverlay.t) (pos : Z * Z) (row col : nat)
    (k : float) (x y : Z) :
  in_range (DarkOverlay.grid self) ->
  get_cell (DarkOverlay.grid self) row col = Some k ->
  PrimFloat.ltb 0 k = true ->
  lit (DarkOverlay.light self) (DarkOverlay.cell_size self) pos row col = false ->
  inside (DarkOverlay.surf self) x y = true ->
  in_rect (cell_rect (DarkOverlay.cell_size self) row col) x y = true ->
  exists grid' dark k' v,
    draw_cells self pos = Some (grid', dark)
    /\ get_cell grid' row col = Some k'
    /\ int k' = Some v
    /\ 25 <= v <= 255
    /\ pixel dark x y = grey v.
Proof.
  intros Hg Hk Hpos Hlit Hin Hrect.
  destruct (draw_cells_in_range self pos Hg) as (g' & dark & Hrun & _ & Hget & _ & _ & Hpix).
  destruct (decay_positive k Hpos) as [Hlo Hhi].
  destruct (int_floor_range (decay k) Hlo Hhi) as (v & Hv & Hrange).
  exists g', dark, (decay k), v.
  split; [exact Hrun|]. split; [rewrite Hget, Hk, Hlit; reflexivity|].
  split; [exact Hv|]. split; [exact Hrange|].
  rewrite (Hpix row col k x y Hk Hin Hrect), Hlit.
  unfold cell_grey. rewrite Hv. change (default 0 (Some v)) with v.
  rewrite clamp_int by lia. f_equal. lia.
Qed.

Lemma check_fade :
  along (fun k => PrimFloat.ltb 25 k && PrimFloat.leb k 55) 299 55%float
  && PrimFloat.eqb (Nat.iter 300 decay 55%float) 25 = true.
Proof. vm_compute. reflexivity. Qed.

Lemma fade_300 : Nat.iter 300 decay 55%float = 25%float.
Proof. vm_compute. reflexivity. Qed.

(** X7: the fade of a revealed cell.  A frame in which the light reaches a
    cell stores 55; if the light does not reach it in the frames that
    follow, its brightness is above 25 (and at most 55) after each of the
    first 299 of them, and exactly 25 after 300 and after any larger
    number. *)
Theorem fade_from_reveal (self : DarkOverlay.t) (row col : nat) (k : float)
    (f : Surface * (Z * Z)) (fs : list (Surface * (Z * Z))) :
  in_range (DarkOverlay.grid self) ->
  get_cell (DarkOverlay.grid self) row col = Some k ->
  lit (DarkOverlay.light self) (DarkOverlay.cell_size self) (snd f) row col = true ->
  unlit (DarkOverlay.light self) (DarkOverlay.cell_size self) row col fs ->
  exists self' k',
    frames self (f :: fs) = Some self'
    /\ get_cell (DarkOverlay.grid self') row col = Some k'
    /\ ((length fs < 300)%nat ->
        PrimFloat.ltb 25 k' = true /\ PrimFloat.leb k' 55 = true)
    /\ ((300 <= length fs)%nat -> k' = 25%float).
Proof.
  intros Hg Hk Hlit Hdark.
  destruct (frames_in_range (f :: fs) self Hg) as (self' & Hrun & _ & _ & _ & Hget).
  specialize (Hget row col). rewrite Hk in Hget.
  cbn [fmap option_fmap option_map] in Hget.
  rewrite cell_after_cons, Hlit in Hget. cbn [cell_next] in Hget.
  rewrite cell_after_unlit in Hget by exact Hdark.
  exists self', (Nat.iter (length fs) decay 55%float).
  split; [exact Hrun|]. split; [exact Hget|].
  pose proof check_fade as Hc. apply andb_true_iff in Hc. destruct Hc as [Hslow _].
  split.
  - intros Hn.
    pose proof (along_iter _ _ _ Hslow (length fs) ltac:(lia)) as H.
    apply andb_true_iff in H. exact H.
  - intros Hn. replace (length fs) with ((length fs - 300) + 300)%nat by lia.
    rewrite Nat.iter_add, fade_300.
    induction (length fs - 300)%nat as [|n IH]; [reflexivity|].
    rewrite Nat.iter_succ, IH. reflexivity.
Qed.

(** X8: the steady state.  When every cell is at 0 or at the floor 25 and
    the light reaches none of them, [draw] returns and leaves the grid
    exactly as it was. *)
Theorem steady_state (self : DarkOverlay.t) (scene : Surface) (pos : Z * Z) :
  (forall row col k, get_cell (DarkOverlay.grid self) row col = Some k ->
     (k = PrimFloat.zero \/ k = 25%float)
     /\ lit (DarkOverlay.light self) (DarkOverlay.cell_size self) pos row col = false) ->
  exists self' screen',
    draw self scene pos = Some (self', screen')
    /\ DarkOverlay.grid self' = DarkOverlay.grid self.
Proof.
  intros Hall.
  assert (Hg : in_range (DarkOverlay.grid self)).
  { intros r c k Hk. destruct (Hall r c k Hk) as [[->| ->] _]; split; reflexivity. }
  destruct (draw_in_range self scene pos Hg)
    as (self' & screen' & dark & Hrun & Hcells & _ & _ & _ & Hget & _).
  exists self', screen'. split; [exact Hrun|].
  apply grid_ext.
  - apply (draw_cells_frame self pos _ _ Hcells).
  - intros r c. rewrite Hget.
    destruct (get_cell (DarkOverlay.grid self) r c) as [k|] eqn:Hk; [|reflexivity].
    destruct (Hall r c k Hk) as [Hv ->]. cbn [fmap option_fmap option_map cell_next].
    destruct Hv as [->| ->]; reflexivity.
Qed.

(** X9: an overlay built by the constructor never raises in [draw]: any
    number of frames runs, and after them every cell is 0 or between 25
    and 255, and the grid has the shape it was built with. *)
Theorem constructed_overlay_runs (start : DarkOverlay.t) (fs : list (Surface * (Z * Z))) :
  DarkOverlay_init = Some start ->
  exists self,
    frames start fs = Some self
    /\ shape (DarkOverlay.grid self) = shape (DarkOverlay.grid start)
    /\ forall row col k, get_cell (DarkOverlay.grid self) row col = Some k ->
         k = PrimFloat.zero
         \/ (PrimFloat.leb 25 k = true /\ PrimFloat.leb k 255 = true).
Proof.
  intros Hinit. pose proof (init_in_range start Hinit) as H0.
  destruct (frames_in_range fs start H0) as (self & Hrun & _).
  exists self. split; [exact Hrun|]. split.
  - clear Hinit H0. revert start Hrun.
    induction fs as [|[scene pos] fs IH]; intros start Hrun.
    + cbn [frames] in Hrun. injection Hrun as <-. reflexivity.
    + cbn [frames] in Hrun.
      destruct (draw start scene pos) as [[s1 scr]|] eqn:Hd; [|discriminate].
      cbn [mbind option_bind] in Hrun. rewrite (IH s1 Hrun).
      unfold draw in Hd.
      destruct (draw_cells start pos) as [[g' dark]|] eqn:Hcells; [|discriminate].
      cbn [mbind option_bind] in Hd. injection Hd as <- <-.
      apply (draw_cells_frame start pos _ _ Hcells).
  - apply (reachable_in_range start self fs Hinit Hrun).
Qed.

(** X10: the strip outside the cells.  A pixel of the overlay's surface
    that lies in no cell is not repainted by the loops of [draw]; the only
    thing that reaches it is the glow mask, blended with the maximum, so
    no channel of it ever gets darker. *)
Theorem margin_keeps_trail (self : DarkOverlay.t) (scene : Surface) (pos : Z * Z)
    (x y : Z) :
  in_range (DarkOverlay.grid self) ->
  (forall r c, is_Some (get_cell (DarkOverlay.grid self) r c) ->
               in_rect (cell_rect (DarkOverlay.cell_size self) r c) x y = false) ->
  exists self' screen' grid' dark,
    draw self scene pos = Some (self', screen')
    /\ draw_cells self pos = Some (grid', dark)
    /\ pixel dark x y = pixel (DarkOverlay.surf self) x y
    /\ darker (pixel (DarkOverlay.surf self) x y) (pixel (DarkOverlay.surf self') x y).
Proof.
  intros Hg Hout.
  destruct (draw_rows_in_range (DarkOverlay.light self) (DarkOverlay.cell_size self) pos
              (seq 0 (length (DarkOverlay.grid self)))
              (DarkOverlay.grid self) (DarkOverlay.surf self) Hg)
    as (g' & dark & Hrun & _ & _ & _ & _ & Hkeep & _).
  { apply NoDup_seq. }
  { intros r Hr. apply elem_of_seq in Hr. lia. }
  assert (Hcells : draw_cells self pos = Some (g', dark)) by exact Hrun.
  assert (Hpix : pixel dark x y = pixel (DarkOverlay.surf self) x y).
  { apply Hkeep. intros r c _ Hc. apply Hout. exact Hc. }
  eexists _, _, g', dark. split; [unfold draw; rewrite Hcells; reflexivity|].
  split; [exact Hcells|]. split; [exact Hpix|].
  cbn [DarkOverlay.surf blit pixel]. rewrite <- Hpix.
  destruct (_ && _); [|unfold darker; lia].
  unfold darker, blend, blend_channel. cbn [red green blue].
  repeat match goal with |- context [?a <? ?b] => destruct (Z.ltb_spec a b) end; lia.
Qed.

(** ** The overlay as the constructor builds it *)

Lemma DarkOverlay_init_surfaces (start : DarkOverlay.t) :
  DarkOverlay_init = Some start ->
  (forall x y, pixel (DarkOverlay.surf start) x y = grey 0)
  /\ get_size (LightGlow.surf (DarkOverlay.light start)) = (250, 250)
  /\ forall x y, pixel (LightGlow.surf (DarkOverlay.light start)) x y
                 = ring_mask 125 12 3 x y.
Proof.
  unfold DarkOverlay_init, SCREEN, rect_w, rect_h, rect_size.
  destruct SIZE as [w h]. cbn [fst snd].
  pose proof (Surface_new_some w h) as H.
  destruct (Surface_new (w, h)) as [s|]; cbn [mbind option_bind]; [|discriminate].
  pose proof (LightGlow_init_some 125) as Hl.
  destruct (LightGlow_init 125) as [l|]; cbn [mbind option_bind]; [|discriminate].
  intros [= <-].
  cbn [DarkOverlay.cell_size DarkOverlay.grid DarkOverlay.surf DarkOverlay.light].
  destruct H as (_ & _ & _ & _ & Hblack). destruct Hl as (_ & _ & _ & Hsize & Hmask).
  split; [exact Hblack|]. split; [exact Hsize | exact Hmask].
Qed.

Lemma ring_mask_byte (radius intensity step x y : Z) :
  byte_color (ring_mask radius intensity step x y).
Proof.
  unfold ring_mask. destruct (_ && _); [|apply grey_byte; lia].
  destruct (top_ring _ _ x y) as [ring|] eqn:Ht; [|apply grey_byte; lia].
  destruct (top_ring_spec _ _ _ _ _ Ht) as (i & Hi & _).
  assert (Hlt : (i < 25)%nat).
  { apply lookup_lt_Some in Hi. rewrite rings_length in Hi. exact Hi. }
  rewrite rings_lookup in Hi by exact Hlt. injection Hi as <-.
  cbn [snd]. apply grey_byte. rewrite clamp_int by lia. lia.
Qed.

(** Frames keep the light and the cell size, and bytes on the overlay's
    surface. *)
Lemma frames_frame (fs : list (Surface * (Z * Z))) :
  forall self self' : DarkOverlay.t,
  byte_surface (DarkOverlay.surf self) ->
  byte_surface (LightGlow.surf (DarkOverlay.light self)) ->
  frames self fs = Some self' ->
  byte_surface (DarkOverlay.surf self')
  /\ DarkOverlay.light self' = DarkOverlay.light self
  /\ DarkOverlay.cell_size self' = DarkOverlay.cell_size self.
Proof.
  induction fs as [|[scene pos] fs IH]; intros self self' Hs Hl Hrun.
  - cbn [frames] in Hrun. injection Hrun as <-. tauto.
  - cbn [frames] in Hrun.
    destruct (draw self scene pos) as [[s1 scr]|] eqn:Hd; [|discriminate].
    cbn [mbind option_bind] in Hrun. unfold draw in Hd.
    destruct (draw_cells self pos) as [[g' dark]|] eqn:Hcells; [|discriminate].
    cbn [mbind option_bind] in Hd. injection Hd as <- <-.
    apply IH in Hrun; cbn [DarkOverlay.surf DarkOverlay.light DarkOverlay.cell_size] in *.
    + exact Hrun.
    + apply blit_byte; [|exact Hl]. apply (draw_cells_byte self pos g' dark Hs Hcells).
    + exact Hl.
Qed.

(** A ring that covers a pixel is the one that shows there, unless a ring
    painted later covers it too. *)
Lemma top_ring_covered (rs : list (Z * Z)) (center : Z * Z) (x y : Z) :
  forall (i : nat) (ring : Z * Z),
  rs !! i = Some ring -> circle center (fst ring) x y = true ->
  exists j ring', (i <= j)%nat /\ rs !! j = Some ring'
                  /\ top_ring rs center x y = Some ring'.
Proof.
  induction rs as [|r0 rs IH]; intros i ring Hi Hc; [rewrite lookup_nil in Hi; discriminate|].
  cbn [top_ring]. destruct i as [|i].
  - injection Hi as ->.
    destruct (top_ring rs center x y) as [t|] eqn:Ht.
    + destruct (top_ring_spec rs center x y t Ht) as (j & Hj & _).
      exists (S j), t. split; [lia|]. split; [exact Hj | reflexivity].
    + rewrite Hc. exists O, ring. split; [lia|]. split; reflexivity.
  - destruct (IH i ring Hi Hc) as (j & ring' & Hij & Hj & Ht).
    rewrite Ht. exists (S j), ring'. split; [lia|]. split; [exact Hj | reflexivity].
Qed.

(** X11: the constructor leaves the glow counter at 12 ([__init__] sets 11
    and calls [update_glow] once) and [draw] never changes it, so in every
    frame the square of a cell the light reaches is painted with grey
    [55 - (11 - 12) * 2 = 57] while 55 is what the grid stores. *)
Theorem revealed_cell_painted_57 (start self : DarkOverlay.t)
    (fs : list (Surface * (Z * Z))) (pos : Z * Z) (row col : nat) (k : float) (x y : Z) :
  DarkOverlay_init = Some start ->
  frames start fs = Some self ->
  get_cell (DarkOverlay.grid self) row col = Some k ->
  lit (DarkOverlay.light self) (DarkOverlay.cell_size self) pos row col = true ->
  inside (DarkOverlay.surf self) x y = true ->
  in_rect (cell_rect (DarkOverlay.cell_size self) row col) x y = true ->
  LightGlow.glow (DarkOverlay.light self) = 12
  /\ exists grid' dark,
       draw_cells self pos = Some (grid', dark)
       /\ pixel dark x y = grey 57
       /\ get_cell grid' row col = Some 55%float.
Proof.
  intros Hinit Hrun Hk Hlit Hin Hrect.
  destruct (reachable_in_range start self fs Hinit Hrun) as [Hg _].
  pose proof (init_in_range start Hinit) as Hg0.
  destruct (frames_in_range fs start Hg0) as (self2 & Hrun2 & _ & Hl & _).
  rewrite Hrun in Hrun2. injection Hrun2 as <-.
  pose proof DarkOverlay_init_some as H. rewrite Hinit in H.
  destruct H as (_ & _ & _ & _ & Hglow).
  assert (H12 : LightGlow.glow (DarkOverlay.light self) = 12) by (rewrite Hl; exact Hglow).
  split; [exact H12|].
  destruct (draw_cells_in_range self pos Hg) as (g' & dark & Hcells & _ & Hget & _ & _ & Hpix).
  exists g', dark. split; [exact Hcells|]. split.
  - rewrite (Hpix row col k x y Hk Hin Hrect), Hlit, H12. reflexivity.
  - rewrite Hget, Hk, Hlit. reflexivity.
Qed.

(** X12: the bright core of the light.  With the counter at 12 the three
    innermost rings of the mask (22, 23, 24) are at full brightness 255.  A
    pixel of the screen that the circle of ring 22 (radius 59) around the
    light covers comes out of [draw] exactly as the scene had it, whatever
    the fog grid holds. *)
Theorem bright_core (start self : DarkOverlay.t) (fs : list (Surface * (Z * Z)))
    (scene : Surface) (pos : Z * Z) (x y : Z) :
  DarkOverlay_init = Some start ->
  frames start fs = Some self ->
  byte_color (pixel scene x y) ->
  0 <= x - (fst pos - 125) < 250 ->
  0 <= y - (snd pos - 125) < 250 ->
  circle (125, 125) 59 (x - (fst pos - 125)) (y - (snd pos - 125)) = true ->
  exists self' screen',
    draw self scene pos = Some (self', screen')
    /\ pixel screen' x y = pixel scene x y.
Proof.
  intros Hinit Hrun Hscene Hx Hy Hcov.
  destruct (reachable_in_range start self fs Hinit Hrun) as [Hg _].
  destruct (DarkOverlay_init_surfaces start Hinit) as (Hblack & Hsize & Hmask).
  assert (Hb0 : byte_surface (DarkOverlay.surf start)).
  { intros a b. rewrite Hblack. apply grey_byte. lia. }
  assert (Hm0 : byte_surface (LightGlow.surf (DarkOverlay.light start))).
  { intros a b. rewrite Hmask. apply ring_mask_byte. }
  destruct (frames_frame fs start self Hb0 Hm0 Hrun) as (Hb & Hl & _).
  destruct (draw_in_range self scene pos Hg)
    as (self' & screen' & dark & Hd & Hcells & _ & _ & _ & _ & Hsurf & Hscr).
  exists self', screen'. split; [exact Hd|].
  pose proof (draw_cells_byte self pos _ dark Hb Hcells) as Hdark.
  rewrite Hscr, Hsurf, Hl. cbn [blit pixel]. cbn [fst snd].
  replace (x - 0) with x by lia. replace (y - 0) with y by lia.
  destruct (inside scene x y && _) eqn:Hin; [|reflexivity].
  apply andb_true_iff in Hin. destruct Hin as [_ Hin].
  unfold inside in Hin. cbn [width height blit] in Hin.
  replace (x - 0) with x in * by lia. replace (y - 0) with y in * by lia.
  assert (Hwh : width (LightGlow.surf (DarkOverlay.light start)) = 250
                /\ height (LightGlow.surf (DarkOverlay.light start)) = 250).
  { unfold get_size in Hsize. injection Hsize as -> ->. split; reflexivity. }
  destruct Hwh as [Hw Hh].
  unfold get_rect_at, topleft. cbn [fst snd]. rewrite Hw, Hh.
  change (250 / 2) with 125.
  assert (Hins : inside dark x y
                 && inside (LightGlow.surf (DarkOverlay.light start))
                      (x - (fst pos - 125)) (y - (snd pos - 125)) = true).
  { unfold inside. rewrite Hw, Hh. rewrite Hin. cbn [andb].
    repeat (apply andb_true_iff; split); try apply Z.leb_le; try apply Z.ltb_lt; lia. }
  rewrite Hins. rewrite Hmask.
  assert (Hfull : ring_mask 125 12 3 (x - (fst pos - 125)) (y - (snd pos - 125)) = grey 255).
  { unfold ring_mask. change (125 * 2) with 250.
    replace ((0 <=? x - (fst pos - 125)) && (x - (fst pos - 125) <? 250)
             && (0 <=? y - (snd pos - 125)) && (y - (snd pos - 125) <? 250)) with true
      by (symmetry; repeat (apply andb_true_iff; split);
          try apply Z.leb_le; try apply Z.ltb_lt; lia).
    change (250 / 2) with 125.
    destruct (top_ring_covered (rings 125 12 3) (125, 125) _ _ 22%nat (59, 255)
                eq_refl Hcov) as (j & ring' & Hj & Hlook & ->).
    assert (Hlt : (j < 25)%nat).
    { apply lookup_lt_Some in Hlook. rewrite rings_length in Hlook. exact Hlook. }
    rewrite rings_lookup in Hlook by exact Hlt. injection Hlook as <-.
    cbn [snd]. f_equal. rewrite clamp_int by lia. lia. }
  rewrite Hfull.
  destruct (Hdark x y) as (Hr & Hgr & Hbl). destruct Hscene as (Sr & Sg & Sb).
  destruct (pixel scene x y) as [sr sg sb]. cbn [red green blue] in *.
  unfold blend. cbn [red green blue grey].
  assert (Hmax : forall d, 0 <= d <= 255 -> blend_channel BLEND_RGBA_MAX 255 d = 255).
  { intros d Hd255. unfold blend_channel. destruct (Z.ltb_spec d 255); lia. }
  rewrite !Hmax by assumption. rewrite !mult_full by assumption. reflexivity.
Qed.


(** X19: what [__init__] paints is not what a [LightGlow] shows.  The
    constructor paints the mask of ring step 5 and then calls
    [update_glow], which starts from a new surface: the glow it returns is
    the one [update_glow] makes of any surface at counter 11, with the mask
    of ring step 3 at intensity 12. *)
Theorem constructor_mask (radius : Z) (s : Surface) :
  0 <= radius ->
  LightGlow_init radius
  = update_glow {| LightGlow.radius := radius; LightGlow.surf := s; LightGlow.glow := 11 |}
  /\ exists self,
       LightGlow_init radius = Some self
       /\ LightGlow.glow self = 12
       /\ forall x y, pixel (LightGlow.surf self) x y = ring_mask radius 12 3 x y.
Proof.
  intros Hr. split.
  - unfold LightGlow_init.
    pose proof (LightGlow_init_surf_some radius) as H.
    destruct (LightGlow_init_surf radius) as [m|]; [reflexivity | lia].
  - pose proof (LightGlow_init_some radius) as H.
    destruct (LightGlow_init radius) as [self|]; [|lia].
    destruct H as (_ & _ & Hg & _ & Hp). exists self.
    split; [reflexivity|]. split; [exact Hg | exact Hp].
Qed.

(** X20: the fog outside the glow.  At a pixel of a cell that the glow mask
    does not cover, the darkness layer shows the grey the cell was painted
    with and the screen shows the scene multiplied by that grey; for a
    cell that is not greater than 0 and that the light does not reach,
    the screen is black there. *)
Theorem fog_outside_mask (self : DarkOverlay.t) (scene : Surface) (pos : Z * Z)
    (row col : nat) (k : float) (x y : Z) :
  in_range (DarkOverlay.grid self) ->
  get_cell (DarkOverlay.grid self) row col = Some k ->
  inside (DarkOverlay.surf self) x y = true ->
  in_rect (cell_rect (DarkOverlay.cell_size self) row col) x y = true ->
  inside scene x y = true ->
  inside (LightGlow.surf (DarkOverlay.light self))
         (x - fst (topleft (get_rect_at (LightGlow.surf (DarkOverlay.light self)) pos)))
         (y - snd (topleft (get_rect_at (LightGlow.surf (DarkOverlay.light self)) pos)))
  = false ->
  exists self' screen' g,
    draw self scene pos = Some (self', screen')
    /\ g = cell_grey (LightGlow.glow (DarkOverlay.light self))
             (lit (DarkOverlay.light self) (DarkOverlay.cell_size self) pos row col) k
    /\ pixel (DarkOverlay.surf self') x y = grey g
    /\ pixel screen' x y = blend BLEND_RGBA_MULT (grey g) (pixel scene x y)
    /\ (PrimFloat.ltb 0 k = false ->
        lit (DarkOverlay.light self) (DarkOverlay.cell_size self) pos row col = false ->
        pixel screen' x y = grey 0).
Proof.
  intros Hg Hk Hin Hrect Hscene Hout.
  destruct (draw_in_range self scene pos Hg)
    as (self' & screen' & dark & Hd & Hcells & _ & _ & _ & _ & Hsurf & Hscr).
  destruct (draw_cells_in_range self pos Hg) as (g2 & d2 & Hrun & _ & _ & Hw & Hh & Hpix).
  rewrite Hcells in Hrun. injection Hrun as <- <-.
  eexists self', screen', _. split; [exact Hd|]. split; [reflexivity|].
  assert (Hdark : pixel (DarkOverlay.surf self') x y
                  = grey (cell_grey (LightGlow.glow (DarkOverlay.light self))
                            (lit (DarkOverlay.light self) (DarkOverlay.cell_size self)
                                 pos row col) k)).
  { rewrite Hsurf. cbn [blit pixel]. rewrite Hout, andb_false_r.
    apply (Hpix row col k x y Hk Hin Hrect). }
  assert (Hscreen : pixel screen' x y
                    = blend BLEND_RGBA_MULT (pixel (DarkOverlay.surf self') x y)
                        (pixel scene x y)).
  { rewrite Hscr. cbn [blit pixel fst snd].
    replace (x - 0) with x by lia. replace (y - 0) with y by lia.
    assert (Hin' : inside (DarkOverlay.surf self') x y = true).
    { rewrite Hsurf. unfold inside in Hin |- *. cbn [blit width height].
      rewrite Hw, Hh. exact Hin. }
    rewrite Hscene, Hin'. reflexivity. }
  split; [exact Hdark|]. split; [rewrite Hscreen, Hdark; reflexivity|].
  intros Hpos Hlit. rewrite Hscreen, Hdark, Hlit.
  destruct (dark_zero k (Hg _ _ _ Hk) Hpos) as [Hfix Hint].
  unfold cell_grey. rewrite Hfix, Hint.
  change (clamp (default 0 (Some 0)) 0 255) with 0.
  unfold blend, blend_channel, grey. cbn [red green blue].
  rewrite !orb_true_r. reflexivity.
Qed.

End Engine.

(** ** The solid objects *)

Lemma colliderect_sym (a b : Rect) : colliderect a b = colliderect b a.
Proof.
  destruct a as [[[ax ay] aw] ah], b as [[[bx b_y] bw] bh]. unfold colliderect.
  destruct (aw =? 0), (ah =? 0), (bw =? 0), (bh =? 0); cbn [orb]; try reflexivity.
  rewrite !Z.gtb_ltb.
  repeat match goal with
         | |- context [?u <? ?v] => destruct (Z.ltb_spec u v)
         end; cbn [andb]; try reflexivity; lia.
Qed.

(** Two rectangles that share a pixel collide. *)
Lemma colliderect_pixel (a b : Rect) (x y : Z) :
  in_rect a x y = true -> in_rect b x y = true -> colliderect a b = true.
Proof.
  destruct a as [[[ax ay] aw] ah], b as [[[bx b_y] bw] bh]. unfold in_rect, colliderect.
  intros Ha Hb.
  repeat (apply andb_true_iff in Ha; destruct Ha as [Ha ?]).
  repeat (apply andb_true_iff in Hb; destruct Hb as [Hb ?]).
  repeat match goal with
         | H : (_ <=? _) = true |- _ => apply Z.leb_le in H
         | H : (_ <? _) = true |- _ => apply Z.ltb_lt in H
         end.
  destruct (Z.eqb_spec aw 0); [lia|]. destruct (Z.eqb_spec ah 0); [lia|].
  destruct (Z.eqb_spec bw 0); [lia|]. destruct (Z.eqb_spec bh 0); [lia|].
  cbn [orb]. rewrite !Z.gtb_ltb.
  repeat (apply andb_true_iff; split); apply Z.ltb_lt; lia.
Qed.

Lemma apart_nil : apart [].
Proof. intros i j a b _ Hi. rewrite lookup_nil in Hi. discriminate. Qed.

(** An object that collides with none of a list of objects that are apart
    can join them. *)
Lemma apart_snoc (objects : list Object.t) (obj : Object.t) :
  apart objects ->
  existsb (fun other => colliderect (Object_rect obj) (Object_rect other)) objects = false ->
  apart (objects ++ [obj]).
Proof.
  intros Hap Hnone.
  assert (Hnew : forall i other, objects !! i = Some other ->
            colliderect (Object_rect obj) (Object_rect other) = false).
  { intros i other Hi.
    destruct (colliderect (Object_rect obj) (Object_rect other)) eqn:E; [|reflexivity].
    assert (Hex : existsb (fun other => colliderect (Object_rect obj) (Object_rect other))
                    objects = true).
    { apply existsb_exists. exists other. split; [|exact E].
      apply list_elem_of_In. eapply list_elem_of_lookup_2. exact Hi. }
    congruence. }
  intros i j a b Hij Hi Hj.
  destruct (lt_dec i (length objects)) as [Hli|Hli],
           (lt_dec j (length objects)) as [Hlj|Hlj].
  - rewrite lookup_app_l in Hi, Hj by assumption. eapply Hap; eassumption.
  - rewrite lookup_app_l in Hi by assumption.
    rewrite lookup_app_r in Hj by lia.
    destruct (j - length objects)%nat as [|n] eqn:E; [|destruct n; discriminate].
    injection Hj as <-. rewrite colliderect_sym. eapply Hnew. exact Hi.
  - rewrite lookup_app_l in Hj by assumption.
    rewrite lookup_app_r in Hi by lia.
    destruct (i - length objects)%nat as [|n] eqn:E; [|destruct n; discriminate].
    injection Hi as <-. eapply Hnew. exact Hj.
  - rewrite lookup_app_r in Hi, Hj by lia.
    destruct (i - length objects)%nat as [|n] eqn:Ei; [|destruct n; discriminate].
    destruct (j - length objects)%nat as [|m] eqn:Ej; [|destruct m; discriminate].
    lia.
Qed.

(** What the loop of [generate_many] keeps: the objects are apart, and
    there are no more of them than asked for. *)
Lemma generate_many_loop_inv (sheet : Surface) (nb max_tries tries : Z)
    (draws : list ((Z * Z) * nat)) :
  forall objects objs,
  generate_many_loop sheet nb max_tries tries draws objects = Returned objs ->
  apart objects -> Z.of_nat (length objects) <= Z.max 0 nb ->
  apart objs
  /\ Z.of_nat (length objs) <= Z.max 0 nb
  /\ (tries < max_tries -> nb <= Z.of_nat (length objs))
  /\ (max_tries <= tries -> objs = objects).
Proof.
  induction draws as [|[pos r] draws IH]; intros objects objs Hrun Hap Hlen.
  - cbn [generate_many_loop] in Hrun.
    destruct (Z.ltb_spec (Z.of_nat (length objects)) nb) as [Hlt|Hge],
             (Z.ltb_spec tries max_tries) as [Ht|Ht];
      cbn [andb] in Hrun; try discriminate; injection Hrun as <-;
      (split; [exact Hap|]); (split; [exact Hlen|]); split; try reflexivity; lia.
  - cbn [generate_many_loop] in Hrun.
    destruct (Z.ltb_spec (Z.of_nat (length objects)) nb) as [Hlt|Hge],
             (Z.ltb_spec tries max_tries) as [Ht|Ht];
      cbn [andb] in Hrun;
      try (injection Hrun as <-;
           (split; [exact Hap|]); (split; [exact Hlen|]); split; try reflexivity; lia).
    destruct (SolidObject_init sheet pos r) as [obj|]; [|discriminate].
    destruct (existsb _ objects) eqn:Hex; cbn [negb] in Hrun.
    + destruct (IH objects objs Hrun Hap Hlen) as (H1 & H2 & H3 & H4).
      split; [exact H1|]. split; [exact H2|]. split; [exact H3|]. lia.
    + destruct (IH (objects ++ [obj]) objs Hrun) as (H1 & H2 & H3 & H4).
      * apply apart_snoc; assumption.
      * rewrite length_app. cbn [length]. lia.
      * split; [exact H1|]. split; [exact H2|]. split; [exact H3|]. lia.
Qed.

(** X14: the objects [generate_many] returns are apart: no two of them
    collide, and no pixel lies in the rectangles of two of them. *)
Theorem generate_many_apart (sheet : Surface) (nb max_tries : Z)
    (draws : list ((Z * Z) * nat)) (objs : list Object.t)
    (i j : nat) (a b : Object.t) :
  generate_many sheet nb max_tries draws = Returned objs ->
  i <> j -> objs !! i = Some a -> objs !! j = Some b ->
  colliderect (Object_rect a) (Object_rect b) = false
  /\ forall x y, in_rect (Object_rect a) x y = true -> in_rect (Object_rect b) x y = false.
Proof.
  unfold generate_many. intros Hrun Hij Hi Hj.
  destruct (generate_many_loop_inv sheet nb max_tries 0 draws [] objs Hrun apart_nil)
    as (Hap & _); [cbn [length]; lia|].
  pose proof (Hap i j a b Hij Hi Hj) as Hno. split; [exact Hno|].
  intros x y Ha. destruct (in_rect (Object_rect b) x y) eqn:Hb; [|reflexivity].
  rewrite (colliderect_pixel _ _ x y Ha Hb) in Hno. discriminate.
Qed.

(** X15: with a [max_tries] of 0 or less, or an [nb] of 0 or less,
    [generate_many] returns the empty list on every list of draws, the
    empty one included: it returns without drawing anything.  With both
    positive it does not return before its first draw, and when it
    returns, it returns exactly [nb] objects. *)
Theorem generate_many_count (sheet : Surface) (nb max_tries : Z)
    (draws : list ((Z * Z) * nat)) :
  (max_tries <= 0 \/ nb <= 0 ->
   generate_many sheet nb max_tries draws = Returned []
   /\ generate_many sheet nb max_tries [] = Returned [])
  /\ (0 < max_tries -> 0 < nb ->
      generate_many sheet nb max_tries [] = Running
      /\ forall objs, generate_many sheet nb max_tries draws = Returned objs ->
           Z.of_nat (length objs) = nb).
Proof.
  split.
  - intros Hno. unfold generate_many.
    assert (Hcond : (Z.of_nat (length (@nil Object.t)) <? nb) && (0 <? max_tries) = false).
    { cbn [length]. destruct (Z.ltb_spec (Z.of_nat 0) nb), (Z.ltb_spec 0 max_tries);
        try reflexivity; lia. }
    split; [destruct draws as [|[pos r] draws]|]; cbn [generate_many_loop];
      rewrite Hcond; reflexivity.
  - intros Hmax Hnb. split.
    + unfold generate_many. cbn [generate_many_loop length].
      destruct (Z.ltb_spec (Z.of_nat 0) nb), (Z.ltb_spec 0 max_tries);
        try reflexivity; lia.
    + unfold generate_many. intros objs Hrun.
      destruct (generate_many_loop_inv sheet nb max_tries 0 draws [] objs Hrun apart_nil)
        as (_ & Hle & Hge & _); [cbn [length]; lia|].
      specialize (Hge Hmax). lia.
Qed.

Lemma generate_many_loop_tries (sheet : Surface) (nb m1 m2 : Z)
    (draws : list ((Z * Z) * nat)) :
  0 < m1 -> 0 < m2 ->
  forall objects,
  generate_many_loop sheet nb m1 0 draws objects
  = generate_many_loop sheet nb m2 0 draws objects.
Proof.
  intros H1 H2. induction draws as [|[pos r] draws IH]; intros objects;
    cbn [generate_many_loop].
  - destruct (Z.ltb_spec 0 m1), (Z.ltb_spec 0 m2); try lia. reflexivity.
  - destruct (Z.ltb_spec 0 m1), (Z.ltb_spec 0 m2); try lia.
    destruct (Z.of_nat (length objects) <? nb); cbn [andb]; [|reflexivity].
    destruct (SolidObject_init sheet pos r) as [obj|]; [|reflexivity].
    apply IH.
Qed.

(** X16: [max_tries] does not bound anything.  The counter [tries] stays
    at 0, so with the same random draws every positive [max_tries] gives
    the same outcome: the same objects, the same error, or a loop that is
    still running. *)
Theorem max_tries_unused (sheet : Surface) (nb m1 m2 : Z)
    (draws : list ((Z * Z) * nat)) :
  0 < m1 -> 0 < m2 ->
  generate_many sheet nb m1 draws = generate_many sheet nb m2 draws.
Proof.
  intros H1 H2. unfold generate_many. apply generate_many_loop_tries; assumption.
Qed.

(** X17: [generate_many] need not return.  When every object drawn after
    the first collides with the first, the list never gets its second
    object: however many draws are made, the loop is still running,
    whatever the positive [max_tries]. *)
Theorem generate_many_runs_on (sheet : Surface) (nb max_tries : Z)
    (d0 : (Z * Z) * nat) (draws : list ((Z * Z) * nat)) (o0 : Object.t) :
  2 <= nb -> 0 < max_tries ->
  SolidObject_init sheet (fst d0) (snd d0) = Some o0 ->
  Forall (fun d => exists o, SolidObject_init sheet (fst d) (snd d) = Some o
                             /\ colliderect (Object_rect o) (Object_rect o0) = true) draws ->
  generate_many sheet nb max_tries (d0 :: draws) = Running.
Proof.
  intros Hnb Hmax H0 Hall. unfold generate_many. destruct d0 as [pos0 r0].
  cbn [generate_many_loop length fst snd] in *.
  destruct (Z.ltb_spec (Z.of_nat 0) nb); [|lia].
  destruct (Z.ltb_spec 0 max_tries); [|lia]. cbn [andb]. rewrite H0.
  cbn [existsb negb app].
  induction Hall as [|[pos r] draws (o & Ho & Hc) _ IH]; cbn [generate_many_loop length].
  - destruct (Z.ltb_spec (Z.of_nat 1) nb); [|lia].
    destruct (Z.ltb_spec 0 max_tries); [|lia]. reflexivity.
  - destruct (Z.ltb_spec (Z.of_nat 1) nb); [|lia].
    destruct (Z.ltb_spec 0 max_tries); [|lia]. cbn [andb fst snd] in *.
    rewrite Ho. cbn [existsb]. rewrite Hc. cbn [orb negb]. exact IH.
Qed.

(** X18: on a sprite sheet of at least 456 by 129 pixels (the six sprites
    at scale 3) the constructor of [SolidObject] never raises: the object
    is at the position given and has the size of one of the six sprites. *)
Theorem SolidObject_init_total (sheet : Surface) (pos : Z * Z) (r : nat) :
  456 <= width sheet -> 129 <= height sheet ->
  exists obj,
    SolidObject_init sheet pos r = Some obj
    /\ Object.pos obj = pos
    /\ Object.size obj = get_size (Object.sprite obj)
    /\ Object.size obj ∈ [(72, 93); (72, 72); (48, 72); (144, 129); (48, 48)].
Proof.
  intros Hw Hh. unfold SolidObject_init, choice.
  assert (Hr : (r mod length SolidObject.SHEET_RECT < 6)%nat)
    by (apply Nat.mod_upper_bound; discriminate).
  assert (Hsub : forall rx ry rw rh,
            0 <= rx -> 0 <= ry -> 0 <= rw -> 0 <= rh -> rx + rw <= 456 -> ry + rh <= 129 ->
            subsurface sheet (rx, ry, rw, rh)
            = Some {| width := rw; height := rh;
                      pixel := fun x y => pixel sheet (x + rx) (y + ry) |}).
  { intros rx ry rw rh ? ? ? ? ? ?. unfold subsurface.
    destruct (Z.ltb_spec rx 0); [lia|]. destruct (Z.ltb_spec ry 0); [lia|].
    destruct (Z.ltb_spec rw 0); [lia|]. destruct (Z.ltb_spec rh 0); [lia|].
    destruct (Z.ltb_spec (width sheet) (rx + rw)); [lia|].
    destruct (Z.ltb_spec (height sheet) (ry + rh)); [lia|]. reflexivity. }
  destruct (r mod length SolidObject.SHEET_RECT)%nat as [|[|[|[|[|[|n]]]]]]; [| | | | | |lia];
    cbn [SolidObject.SHEET_RECT lookup list_lookup mbind option_bind scale_rect];
    unfold SolidObject.SCALE;
    (rewrite Hsub by lia); cbn [mbind option_bind];
    eexists; (split; [reflexivity|]); (split; [reflexivity|]); (split; [reflexivity|]);
    unfold Object_init, get_size; cbn [Object.size width height];
    repeat first [apply list_elem_of_here | apply list_elem_of_further].
Qed.

(** ** The engine at work *)

Lemma demo_in_range (k : float) :
  brightness k -> in_range (DarkOverlay.grid (demo_overlay k)).
Proof.
  intros Hb row col k' Hk. unfold demo_overlay, get_cell in Hk. cbn in Hk.
  destruct row as [|row]; [|destruct row; discriminate]. cbn in Hk.
  destruct col as [|[|col]]; cbn in Hk; try discriminate;
    injection Hk as <-; exact Hb.
Qed.

Lemma unlit_far (n : nat) :
  unlit euclid demo_light 32 0 0 (repeat far_frame n).
Proof.
  unfold unlit. apply Forall_forall. intros f Hf.
  apply list_elem_of_In, repeat_spec in Hf. subst f. vm_compute. reflexivity.
Qed.

(** *** C1: on an overlay as the constructor builds it (glow counter 12), the
    cell under the light holds 55 after [draw]; 55 reduced by the offset
    [(11 - 12) * 2] is 57. *)
Lemma reveal_dominance_counterexample :
  exists start self' screen',
    DarkOverlay_init (64, 32) disc = Some start
    /\ draw euclid start (blank 64 32) (16, 16) = Some (self', screen')
    /\ lit euclid (DarkOverlay.light start) (DarkOverlay.cell_size start) (16, 16) 0 0 = true
    /\ get_cell (DarkOverlay.grid self') 0 0 = Some 55%float
    /\ clamp (55 - (11 - LightGlow.glow (DarkOverlay.light start)) * 2) 0 255 = 57
    /\ PrimFloat.eqb 55 (float_of_int 57) = false.
Proof.
  pose proof (DarkOverlay_init_some (64, 32) disc) as H.
  destruct (DarkOverlay_init (64, 32) disc) as [start|] eqn:E; [|cbn in H; lia].
  destruct H as (Hcs & Hgrid & _ & Hrad & Hglow).
  destruct (draw_in_range euclid start (blank 64 32) (16, 16)
              (init_in_range (64, 32) disc start E))
    as (self' & screen' & dark & Hd & _ & _ & _ & _ & Hget & _).
  assert (Hlit : lit euclid (DarkOverlay.light start) (DarkOverlay.cell_size start)
                   (16, 16) 0 0 = true).
  { unfold lit. rewrite Hcs, Hrad. vm_compute. reflexivity. }
  exists start, self', screen'. split; [reflexivity|]. split; [exact Hd|].
  split; [exact Hlit|]. split; [|split].
  - rewrite Hget, Hlit, Hgrid. reflexivity.
  - rewrite Hglow. reflexivity.
  - reflexivity.
Qed.

(** *** C1 on the demo overlay: the lit cell holds 55 and is painted 57 when
    the glow counter is 12. *)
Lemma reveal_dominance_witness :
  exists self' screen' dark,
    draw euclid (demo_overlay 255%float) (blank 64 32) (16, 16) = Some (self', screen')
    /\ draw_cells euclid (demo_overlay 255%float) (16, 16)
       = Some (DarkOverlay.grid self', dark)
    /\ get_cell (DarkOverlay.grid self') 0 0 = Some 55%float
    /\ pixel dark 5 5 = grey 57.
Proof.
  destruct (reveal_dominance euclid (demo_overlay 255%float) (blank 64 32) (16, 16) 0 0
              255%float 5 5)
    as (self' & screen' & dark & Hd & Hcells & H55 & Hpix & _).
  - apply demo_in_range. split; reflexivity.
  - reflexivity.
  - vm_compute. reflexivity.
  - reflexivity.
  - reflexivity.
  - exists self', screen', dark. split; [exact Hd|]. split; [exact Hcells|].
    split; [exact H55 | exact Hpix].
Defined.

(** *** C2 on the demo overlay: a cell of brightness 1, one lit frame and
    one dark frame. *)
Lemma brightness_floor_witness :
  exists self' k',
    frames euclid (demo_overlay 1%float) [near_frame; far_frame] = Some self'
    /\ get_cell (DarkOverlay.grid self') 0 0 = Some k'
    /\ PrimFloat.leb 25 k' = true
    /\ PrimFloat.leb k' 255 = true.
Proof.
  apply (brightness_floor euclid (demo_overlay 1%float) 0 0 1%float near_frame [far_frame]).
  - apply demo_in_range. split; reflexivity.
  - reflexivity.
  - reflexivity.
Defined.

(** *** C3 on the demo overlay: a cell of brightness 255 in the dark. *)
Lemma decay_monotone_witness :
  exists before after k1 k2,
    frames euclid (demo_overlay 255%float) (repeat far_frame 3) = Some before
    /\ frames euclid (demo_overlay 255%float) (repeat far_frame 3 ++ [far_frame]) = Some after
    /\ get_cell (DarkOverlay.grid before) 0 0 = Some k1
    /\ get_cell (DarkOverlay.grid after) 0 0 = Some k2
    /\ PrimFloat.leb k2 k1 = true
    /\ PrimFloat.leb 25 k2 = true
    /\ (PrimFloat.ltb 25 k1 = true -> PrimFloat.ltb k2 k1 = true)
    /\ ((2301 <= length (repeat far_frame 3))%nat -> k1 = 25%float /\ k2 = 25%float).
Proof.
  apply (decay_monotone euclid (demo_overlay 255%float) 0 0 255%float
           (repeat far_frame 3) far_frame).
  - apply demo_in_range. split; reflexivity.
  - reflexivity.
  - reflexivity.
  - apply (unlit_far 4).
Defined.

(** *** C4: after 500 updates in the dark a cell that started at 255 is
    still brighter than 205; it is not at 25. *)
Lemma decay_500_counterexample :
  exists self' k',
    frames euclid (demo_overlay 255%float) (repeat far_frame 500) = Some self'
    /\ get_cell (DarkOverlay.grid self') 0 0 = Some k'
    /\ PrimFloat.ltb 205 k' = true
    /\ PrimFloat.eqb k' 25 = false.
Proof.
  destruct (frames_in_range euclid (repeat far_frame 500) (demo_overlay 255%float)
              (demo_in_range 255%float (conj eq_refl eq_refl)))
    as (self' & Hrun & _ & _ & _ & Hget).
  exists self', (Nat.iter 500 decay 255%float).
  split; [exact Hrun|]. split.
  - rewrite Hget.
    change (get_cell (DarkOverlay.grid (demo_overlay 255%float)) 0 0) with (Some 255%float).
    cbn [fmap option_fmap option_map]. apply f_equal.
    rewrite (cell_after_unlit euclid demo_light 32 0 0 _ _ (unlit_far 500)).
    rewrite repeat_length. reflexivity.
  - split; vm_compute; reflexivity.
Qed.

Lemma decay_from_full_witness :
  exists self' k',
    frames euclid (demo_overlay 255%float) (repeat far_frame 500) = Some self'
    /\ get_cell (DarkOverlay.grid self') 0 0 = Some k'
    /\ (length (repeat far_frame 500) = 500%nat ->
        PrimFloat.ltb 205 k' = true /\ PrimFloat.ltb k' 206 = true)
    /\ ((length (repeat far_frame 500) <= 2300)%nat -> PrimFloat.ltb 25 k' = true)
    /\ ((2301 <= length (repeat far_frame 500))%nat -> k' = 25%float).
Proof.
  apply (decay_from_full euclid (demo_overlay 255%float) 0 0 (repeat far_frame 500)).
  - apply demo_in_range. split; reflexivity.
  - reflexivity.
  - apply unlit_far.
Defined.

(** *** C5: a screen of 1000 by 700 gets 31 columns and 21 rows, where the
    ceilings are 32 and 22. *)
Lemma grid_dimensions_counterexample :
  exists self,
    DarkOverlay_init (1000, 700) disc = Some self
    /\ length (DarkOverlay.grid self) = 21%nat
    /\ Z.to_nat (ceil_div 700 32) = 22%nat
    /\ Forall (fun row => length row = 31%nat) (DarkOverlay.grid self)
    /\ Z.to_nat (ceil_div 1000 32) = 32%nat.
Proof.
  pose proof (DarkOverlay_init_some (1000, 700) disc) as H.
  destruct (DarkOverlay_init (1000, 700) disc) as [self|]; [|simpl in H; lia].
  destruct H as (_ & Hg & _). exists self. split; [reflexivity|]. rewrite Hg.
  split; [reflexivity|]. split; [reflexivity|]. split; [|reflexivity].
  vm_compute. repeat constructor.
Qed.

Lemma grid_dimensions_witness :
  match DarkOverlay_init (1024, 768) disc with
  | Some self =>
      DarkOverlay.cell_size self = 32
      /\ length (DarkOverlay.grid self) = 24%nat
      /\ Forall (fun row => length row = 32%nat) (DarkOverlay.grid self)
      /\ (1024 / 32 = ceil_div 1024 32 <-> 1024 mod 32 = 0)
      /\ (768 / 32 = ceil_div 768 32 <-> 768 mod 32 = 0)
  | None => 1024 < 0 \/ 768 < 0
  end.
Proof. exact (grid_dimensions (1024, 768) disc). Defined.


(** *** C7: from a glow of 254 the counter reaches 255 and stays there. *)
Lemma update_glow_counter_witness :
  match update_glow disc (with_glow demo_light 254) with
  | Some self' =>
      LightGlow.glow self' = 255
      /\ forall n, exists self'',
           iterate (update_glow disc) n self' = Some self''
           /\ LightGlow.glow self'' = 255
  | None => False
  end.
Proof.
  pose proof (update_glow_counter disc (with_glow demo_light 254)) as H.
  destruct (update_glow disc (with_glow demo_light 254)) as [self'|]; [|simpl in H; lia].
  destruct H as (Hg & _ & Hinc & _ & Hsat).
  assert (H255 : LightGlow.glow self' = 255) by (rewrite Hinc; simpl; lia).
  split; [exact H255|].
  intros n. destruct (Hsat n) as (s'' & Hrun & _ & Hstay).
  exists s''. split; [exact Hrun | exact (Hstay H255)].
Defined.

(** *** C9 on the demo overlay with every cell at 255. *)
Lemma composite_black_witness :
  exists self' screen',
    draw euclid (demo_overlay 255%float) (blank 64 32) (16, 16) = Some (self', screen')
    /\ forall x y, pixel screen' x y = pixel (blank 64 32) x y.
Proof.
  destruct (composite_black euclid (demo_overlay 255%float) (blank 64 32) (16, 16))
    as (self' & screen' & _ & _ & Hrun & _ & _ & _ & _ & Hsame & _).
  - apply demo_in_range. split; reflexivity.
  - reflexivity.
  - exists self', screen'. split; [exact Hrun | exact Hsame].
Defined.

(** *** C10 on the demo overlay. *)
Lemma reveal_stored_witness :
  exists self' screen',
    draw euclid (demo_overlay 255%float) (blank 64 32) (16, 16) = Some (self', screen')
    /\ get_cell (DarkOverlay.grid self') 0 0 = Some 55%float.
Proof.
  destruct (reveal_stored euclid (demo_overlay 255%float) (blank 64 32) (16, 16) 0 0 255%float)
    as (self' & screen' & Hrun & H55 & _).
  - apply demo_in_range. split; reflexivity.
  - reflexivity.
  - vm_compute. reflexivity.
  - exists self', screen'. split; [exact Hrun | exact H55].
Defined.

(** ** The further properties at work *)

(** *** X1 on the demo overlay: the grid keeps its one row of two cells. *)
Lemma draw_keeps_shape_witness :
  exists self' screen',
    draw euclid (demo_overlay 255%float) (blank 64 32) (16, 16) = Some (self', screen')
    /\ shape (DarkOverlay.grid self') = [2%nat].
Proof.
  destruct (draw euclid (demo_overlay 255%float) (blank 64 32) (16, 16))
    as [[self' screen']|] eqn:E.
  - exists self', screen'. split; [reflexivity|].
    exact (proj1 (draw_keeps_shape euclid _ _ _ _ _ E)).
  - exfalso. revert E. vm_compute. discriminate.
Defined.

(** *** X2: a cell at infinity, out of the light's reach, is between 25 and
    255 after one frame. *)
Lemma positive_cell_healed_witness :
  exists self' screen' k',
    draw euclid (demo_overlay infinity) (blank 64 32) (300, 16)
    = Some (self', screen')
    /\ get_cell (DarkOverlay.grid self') 0 0 = Some k'
    /\ PrimFloat.leb 25 k' = true
    /\ PrimFloat.leb k' 255 = true.
Proof.
  destruct (draw euclid (demo_overlay infinity) (blank 64 32) (300, 16))
    as [[self' screen']|] eqn:E.
  - destruct (positive_cell_healed euclid _ _ _ _ _ 0 0 infinity E eq_refl eq_refl)
      as (k' & H).
    exists self', screen', k'. split; [reflexivity | exact H].
  - exfalso. revert E. vm_compute. discriminate.
Defined.

(** *** X3: a grid of NaN makes [draw] raise. *)
Lemma draw_raises_witness :
  draw euclid (demo_overlay nan) (blank 64 32) (16, 16) = None.
Proof.
  apply (draw_raises euclid (demo_overlay nan) (blank 64 32) (16, 16) 0 0 nan).
  - reflexivity.
  - left. reflexivity.
Defined.

(** *** X4 on the demo overlay and a black scene. *)
Lemma overlay_only_darkens_witness :
  exists self' screen',
    draw euclid (demo_overlay 255%float) (blank 64 32) (16, 16) = Some (self', screen')
    /\ forall x y, darker (pixel screen' x y) (pixel (blank 64 32) x y).
Proof.
  destruct (draw euclid (demo_overlay 255%float) (blank 64 32) (16, 16))
    as [[self' screen']|] eqn:E.
  - exists self', screen'. split; [reflexivity|].
    apply (overlay_only_darkens euclid (demo_overlay 255%float) self' (blank 64 32) screen'
             (16, 16)); [apply blank_byte | apply blank_byte | apply blank_byte | exact E].
  - exfalso. revert E. vm_compute. discriminate.
Defined.

(** *** X5: a cell at 0 is still at 0 after three frames in the dark. *)
Lemma unexplored_stays_dark_witness :
  exists self',
    frames euclid (demo_overlay 0%float) (repeat far_frame 3) = Some self'
    /\ get_cell (DarkOverlay.grid self') 0 0 = Some 0%float.
Proof.
  destruct (unexplored_stays_dark euclid (demo_overlay 0%float) 0 0 0%float
              (repeat far_frame 3)) as (self' & Hrun & Hk & _).
  - apply demo_in_range. split; reflexivity.
  - reflexivity.
  - reflexivity.
  - apply (unlit_far 3).
  - exists self'. split; [exact Hrun | exact Hk].
Defined.

(** *** X6: a cell at 255 in the dark is painted with grey 254. *)
Lemma explored_stays_visible_witness :
  exists grid' dark k' v,
    draw_cells euclid (demo_overlay 255%float) (100000, 100000) = Some (grid', dark)
    /\ get_cell grid' 0 0 = Some k'
    /\ int k' = Some v
    /\ 25 <= v <= 255
    /\ pixel dark 5 5 = grey v.
Proof.
  apply (explored_stays_visible euclid (demo_overlay 255%float) (100000, 100000) 0 0
           255%float 5 5).
  - apply demo_in_range. split; reflexivity.
  - reflexivity.
  - reflexivity.
  - vm_compute. reflexivity.
  - reflexivity.
  - reflexivity.
Defined.

(** *** X7: a lit frame and two dark ones leave the cell between 25 and 55. *)
Lemma fade_from_reveal_witness :
  exists self' k',
    frames euclid (demo_overlay 0%float) (near_frame :: repeat far_frame 2) = Some self'
    /\ get_cell (DarkOverlay.grid self') 0 0 = Some k'
    /\ ((length (repeat far_frame 2) < 300)%nat ->
        PrimFloat.ltb 25 k' = true /\ PrimFloat.leb k' 55 = true)
    /\ ((300 <= length (repeat far_frame 2))%nat -> k' = 25%float).
Proof.
  apply (fade_from_reveal euclid (demo_overlay 0%float) 0 0 0%float near_frame
           (repeat far_frame 2)).
  - apply demo_in_range. split; reflexivity.
  - reflexivity.
  - vm_compute. reflexivity.
  - apply (unlit_far 2).
Defined.

(** *** X8: a grid at the floor, with the light far away. *)
Lemma steady_state_witness :
  exists self' screen',
    draw euclid (demo_overlay 25%float) (blank 64 32) (100000, 100000)
    = Some (self', screen')
    /\ DarkOverlay.grid self' = [[25%float; 25%float]].
Proof.
  apply (steady_state euclid (demo_overlay 25%float) (blank 64 32) (100000, 100000)).
  intros row col k Hk.
  destruct row as [|row]; [|destruct row; discriminate].
  destruct col as [|[|col]]; try discriminate;
    injection Hk as <-; (split; [right; reflexivity | vm_compute; reflexivity]).
Defined.

(** *** X9: an overlay for a screen of 64 by 32, one frame. *)
Lemma constructed_overlay_runs_witness :
  exists start self,
    DarkOverlay_init (64, 32) disc = Some start
    /\ frames euclid start [near_frame] = Some self
    /\ shape (DarkOverlay.grid self) = shape (DarkOverlay.grid start).
Proof.
  destruct (DarkOverlay_init (64, 32) disc) as [start|] eqn:E.
  - destruct (constructed_overlay_runs (64, 32) euclid disc start [near_frame] E)
      as (self & Hrun & Hshape & _).
    exists start, self. split; [reflexivity|]. split; [exact Hrun | exact Hshape].
  - exfalso. pose proof (DarkOverlay_init_some (64, 32) disc) as H.
    rewrite E in H. cbn in H. lia.
Defined.

(** *** X10: the pixel (66, 5) of a surface 70 wide lies in neither cell. *)
Lemma margin_keeps_trail_witness :
  exists self' screen' grid' dark,
    draw euclid demo_margin (blank 70 32) (66, 5) = Some (self', screen')
    /\ draw_cells euclid demo_margin (66, 5) = Some (grid', dark)
    /\ pixel dark 66 5 = pixel (DarkOverlay.surf demo_margin) 66 5
    /\ darker (pixel (DarkOverlay.surf demo_margin) 66 5)
              (pixel (DarkOverlay.surf self') 66 5).
Proof.
  apply (margin_keeps_trail euclid demo_margin (blank 70 32) (66, 5) 66 5).
  - apply (demo_in_range 0%float). split; reflexivity.
  - intros r c [k Hk].
    destruct r as [|r]; [|destruct r; discriminate].
    destruct c as [|[|c]]; try discriminate; reflexivity.
Defined.

(** *** X11: the first frame of a fresh overlay paints a lit cell 57. *)
Lemma revealed_cell_painted_57_witness :
  exists start grid' dark,
    DarkOverlay_init (64, 32) disc = Some start
    /\ draw_cells euclid start (16, 16) = Some (grid', dark)
    /\ pixel dark 5 5 = grey 57
    /\ get_cell grid' 0 0 = Some 55%float.
Proof.
  destruct (DarkOverlay_init (64, 32) disc) as [start|] eqn:E;
    [|exfalso; pose proof (DarkOverlay_init_some (64, 32) disc) as H;
      rewrite E in H; cbn in H; lia].
  pose proof (DarkOverlay_init_some (64, 32) disc) as H. rewrite E in H.
  destruct H as (Hcs & Hgrid & Hsize & Hrad & _).
  unfold get_size in Hsize. injection Hsize as Hw Hh.
  destruct (revealed_cell_painted_57 (64, 32) euclid disc start start [] (16, 16) 0 0
              0%float 5 5 E eq_refl) as (_ & grid' & dark & Hrun & Hpix & H55).
  - rewrite Hgrid. reflexivity.
  - unfold lit. rewrite Hcs, Hrad. vm_compute. reflexivity.
  - unfold inside. rewrite Hw, Hh. reflexivity.
  - rewrite Hcs. reflexivity.
  - exists start, grid', dark. split; [reflexivity|]. split; [exact Hrun|].
    split; [exact Hpix | exact H55].
Defined.

(** *** X12: next to the light the scene comes out as it went in. *)
Lemma bright_core_witness :
  exists start self' screen',
    DarkOverlay_init (64, 32) disc = Some start
    /\ draw euclid start (blank 64 32) (16, 16) = Some (self', screen')
    /\ pixel screen' 5 5 = pixel (blank 64 32) 5 5.
Proof.
  destruct (DarkOverlay_init (64, 32) disc) as [start|] eqn:E;
    [|exfalso; pose proof (DarkOverlay_init_some (64, 32) disc) as H;
      rewrite E in H; cbn in H; lia].
  destruct (bright_core (64, 32) euclid disc start start [] (blank 64 32) (16, 16) 5 5
              E eq_refl) as (self' & screen' & Hrun & Hpix).
  - apply blank_byte.
  - cbn. lia.
  - cbn. lia.
  - reflexivity.
  - exists start, self', screen'. split; [reflexivity|]. split; [exact Hrun | exact Hpix].
Defined.

(** *** X14, X15: of the three draws the first and the third are kept. *)
Lemma generate_many_apart_witness :
  exists objs a b,
    generate_many demo_sheet 2 1000 demo_draws = Returned objs
    /\ objs !! 0%nat = Some a /\ objs !! 1%nat = Some b
    /\ colliderect (Object_rect a) (Object_rect b) = false.
Proof.
  destruct (generate_many demo_sheet 2 1000 demo_draws) as [objs| |] eqn:E;
    [|exfalso; revert E; vm_compute; discriminate ..].
  assert (H2 : exists a b, objs !! 0%nat = Some a /\ objs !! 1%nat = Some b).
  { revert E. vm_compute. intros [= <-]. eexists _, _. split; reflexivity. }
  destruct H2 as (a & b & Ha & Hb).
  exists objs, a, b. split; [reflexivity|]. split; [exact Ha|]. split; [exact Hb|].
  exact (proj1 (generate_many_apart demo_sheet 2 1000 demo_draws objs 0 1 a b E
                  ltac:(discriminate) Ha Hb)).
Defined.

Lemma generate_many_count_witness :
  (exists objs,
     generate_many demo_sheet 2 1000 demo_draws = Returned objs
     /\ Z.of_nat (length objs) = 2)
  /\ generate_many demo_sheet 2 0 demo_draws = Returned []
  /\ generate_many demo_sheet 2 0 [] = Returned []
  /\ generate_many demo_sheet 2 1000 [] = Running.
Proof.
  split; [|split; [|split]].
  - destruct (generate_many demo_sheet 2 1000 demo_draws) as [objs| |] eqn:E;
      [|exfalso; revert E; vm_compute; discriminate ..].
    exists objs. split; [reflexivity|].
    destruct (generate_many_count demo_sheet 2 1000 demo_draws) as [_ H].
    destruct H as [_ H]; [lia | lia | exact (H objs E)].
  - destruct (generate_many_count demo_sheet 2 0 demo_draws) as [H _].
    destruct H as [H _]; [left; lia | exact H].
  - destruct (generate_many_count demo_sheet 2 0 demo_draws) as [H _].
    destruct H as [_ H]; [left; lia | exact H].
  - destruct (generate_many_count demo_sheet 2 1000 demo_draws) as [_ H].
    destruct H as [H _]; [lia | lia | exact H].
Defined.

(** *** X16: a [max_tries] of 1 and one of 1000. *)
Lemma max_tries_unused_witness :
  generate_many demo_sheet 2 1 demo_draws = generate_many demo_sheet 2 1000 demo_draws.
Proof. apply max_tries_unused; lia. Defined.

(** *** X17: five draws that all collide with the first object. *)
Lemma generate_many_runs_on_witness :
  generate_many demo_sheet 16 1000 (((0, 0), 0%nat) :: repeat ((10, 10), 1%nat) 5)
  = Running.
Proof.
  eapply (generate_many_runs_on demo_sheet 16 1000 ((0, 0), 0%nat)).
  - lia.
  - lia.
  - reflexivity.
  - cbn [repeat].
    repeat (constructor; [eexists; split; reflexivity|]). constructor.
Defined.

(** *** X18: the fifth sprite, on the demo sheet. *)
Lemma SolidObject_init_total_witness :
  exists obj,
    SolidObject_init demo_sheet (5, 7) 4 = Some obj
    /\ Object.pos obj = (5, 7)
    /\ Object.size obj = get_size (Object.sprite obj)
    /\ Object.size obj ∈ [(72, 93); (72, 72); (48, 72); (144, 129); (48, 48)].
Proof.
  apply (SolidObject_init_total demo_sheet (5, 7) 4); cbn; lia.
Defined.

(** *** X19: the glow of radius 125. *)
Lemma constructor_mask_witness :
  LightGlow_init disc 125
  = update_glow disc {| LightGlow.radius := 125; LightGlow.surf := blank 1 1;
                        LightGlow.glow := 11 |}.
Proof. exact (proj1 (constructor_mask disc 125 (blank 1 1) ltac:(lia))). Defined.

(** *** X20: an overlay at 0 with the light 300 pixels away: the pixel
    (5, 5) of a white scene comes out black. *)
Lemma fog_outside_mask_witness :
  exists self' screen',
    draw euclid (demo_overlay 0%float)
      {| width := 64; height := 32; pixel := fun _ _ => grey 255 |} (300, 16)
    = Some (self', screen')
    /\ pixel screen' 5 5 = grey 0.
Proof.
  destruct (fog_outside_mask euclid (demo_overlay 0%float)
              {| width := 64; height := 32; pixel := fun _ _ => grey 255 |} (300, 16)
              0 0 0%float 5 5)
    as (self' & screen' & g & Hrun & _ & _ & _ & Hblack).
  - apply demo_in_range. split; reflexivity.
  - reflexivity.
  - reflexivity.
  - reflexivity.
  - reflexivity.
  - reflexivity.
  - exists self', screen'. split; [exact Hrun|].
    apply Hblack; [reflexivity | vm_compute; reflexivity].
Defined.
